(** * figma-cli: node utilities, style derivation, diff and audit engines

    A shallow embedding of the pure core of the command line client:
    [src/utils/nodes.ts], [src/commands/styles.ts], [src/commands/diff.ts],
    [src/commands/export.ts] and the audit command.

    Conventions of the embedding.
    - A JavaScript string is the list of its UTF-16 code units ([jsstring]);
      [===] on strings is equality of these lists.
    - A JavaScript number is [number]: NaN, the two infinities, or a finite
      value carried as an exact rational.  Arithmetic on finite values is
      exact; the rounding of binary64 and overflow to infinity are not
      part of the model.
    - Values of TypeScript type [unknown] that come out of the JSON
      response are [Json] values; an absent property is [None].
    - Property bags ([Record<string, unknown>], the CSS map) are finite maps
      keyed by the property name. *)

From Stdlib Require Import ZArith NArith QArith Qround Lia Lqa List Bool.
From Stdlib Require Import Ascii String ListSet Sorted Permutation Orders Mergesort.
From stdpp Require Import base gmap strings sorting.
Import ListNotations.

Local Open Scope list_scope.
#[local] Set Warnings "-register-all,-clear-no-such-hyp".


(** ** JavaScript strings *)

Module JSString.

Abbreviation CodeUnit := N.
Definition jsstring := list CodeUnit.

(** An ASCII literal as a JavaScript string. *)
Definition lit (s : string) : jsstring :=
  List.map N_of_ascii (list_ascii_of_string s).

Definition DASH : CodeUnit := 45%N.
Definition COLON : CodeUnit := 58%N.

(** ECMAScript WhiteSpace and LineTerminator code points, the characters
    removed by [String.prototype.trim]. *)
Definition isWhiteSpace (c : CodeUnit) : bool :=
  ((9 <=? c) && (c <=? 13) || (c =? 32) || (c =? 160) || (c =? 5760)
   || (8192 <=? c) && (c <=? 8202) || (c =? 8232) || (c =? 8233)
   || (c =? 8239) || (c =? 8287) || (c =? 12288) || (c =? 65279))%N.

Fixpoint trimStart (s : jsstring) : jsstring :=
  match s with
  | [] => []
  | c :: r => if isWhiteSpace c then trimStart r else s
  end.

Fixpoint trimEnd (s : jsstring) : jsstring :=
  match s with
  | [] => []
  | c :: r =>
      match trimEnd r with
      | [] => if isWhiteSpace c then [] else [c]
      | r' => c :: r'
      end
  end.

Definition trim (s : jsstring) : jsstring := trimEnd (trimStart s).

(** [s.replace(/-/g, ':')]: every dash becomes a colon. *)
Definition replaceDashes (s : jsstring) : jsstring :=
  List.map (fun c => if (c =? DASH)%N then COLON else c) s.

Definition jsstring_eq_dec (a b : jsstring) : {a = b} + {a <> b} :=
  List.list_eq_dec BinNat.N.eq_dec a b.

Definition eqb (a b : jsstring) : bool :=
  if jsstring_eq_dec a b then true else false.

(** No whitespace on either end. *)
Definition headNotWs (s : jsstring) : Prop :=
  match s with [] => True | c :: _ => isWhiteSpace c = false end.

Definition Trimmed (s : jsstring) : Prop :=
  headNotWs s /\ headNotWs (List.rev s).

End JSString.
Export JSString.

(** ** JavaScript numbers *)

Module JSNumber.

Inductive number : Type :=
| NaN
| PosInf
| NegInf
| Fin (q : Q).

Definition Qltb (a b : Q) : bool := negb (Qle_bool b a).

Definition ofZ (z : Z) : number := Fin (inject_Z z).
Definition ofNat (n : nat) : number := ofZ (Z.of_nat n).

(** [Number.isFinite]. *)
Definition isFinite (n : number) : bool :=
  match n with Fin _ => true | _ => false end.

(** [a < b]; every comparison with NaN is false. *)
Definition ltb (a b : number) : bool :=
  match a, b with
  | NaN, _ | _, NaN => false
  | Fin x, Fin y => Qltb x y
  | NegInf, NegInf => false
  | NegInf, _ => true
  | _, NegInf => false
  | PosInf, _ => false
  | Fin _, PosInf => true
  end.

Definition gtb (a b : number) : bool := ltb b a.

(** [a === b] on numbers. *)
Definition eqb (a b : number) : bool :=
  match a, b with
  | Fin x, Fin y => Qeq_bool x y
  | PosInf, PosInf | NegInf, NegInf => true
  | _, _ => false
  end.

Definition neg (a : number) : number :=
  match a with
  | NaN => NaN | PosInf => NegInf | NegInf => PosInf | Fin x => Fin (- x)
  end.

Definition add (a b : number) : number :=
  match a, b with
  | NaN, _ | _, NaN => NaN
  | Fin x, Fin y => Fin (x + y)
  | PosInf, NegInf | NegInf, PosInf => NaN
  | PosInf, _ | _, PosInf => PosInf
  | NegInf, _ | _, NegInf => NegInf
  end.

Definition sub (a b : number) : number := add a (neg b).

(** The infinity whose sign is that of [s] times the sign of the finite
    factor [x]; NaN for a zero factor. *)
Definition signedInf (positive : bool) (x : Q) : number :=
  if Qeq_bool x 0 then NaN
  else if xorb positive (Qltb x 0) then PosInf else NegInf.

Definition mul (a b : number) : number :=
  match a, b with
  | NaN, _ | _, NaN => NaN
  | Fin x, Fin y => Fin (x * y)
  | PosInf, Fin x | Fin x, PosInf => signedInf true x
  | NegInf, Fin x | Fin x, NegInf => signedInf false x
  | PosInf, PosInf | NegInf, NegInf => PosInf
  | PosInf, NegInf | NegInf, PosInf => NegInf
  end.

Definition div (a b : number) : number :=
  match a, b with
  | NaN, _ | _, NaN => NaN
  | Fin x, Fin y =>
      if Qeq_bool y 0 then signedInf true x else Fin (x / y)
  | Fin _, _ => Fin 0
  | PosInf, Fin y => if Qltb y 0 then NegInf else PosInf
  | NegInf, Fin y => if Qltb y 0 then PosInf else NegInf
  | _, _ => NaN
  end.

(** [Math.min] of two arguments. *)
Definition min (a b : number) : number :=
  match a, b with
  | NaN, _ | _, NaN => NaN
  | _, _ => if ltb b a then b else a
  end.

(** [Math.max] of two arguments. *)
Definition max (a b : number) : number :=
  match a, b with
  | NaN, _ | _, NaN => NaN
  | _, _ => if ltb a b then b else a
  end.

(** [Math.round]: the nearest integer, a tie going up. *)
Definition round (a : number) : number :=
  match a with
  | Fin x => Fin (inject_Z (Qfloor (x + (1 # 2))))
  | _ => a
  end.

(** The same numeric value (the rational of a finite number is not kept in
    lowest terms). *)
Definition same (a b : number) : Prop :=
  match a, b with
  | Fin x, Fin y => (x == y)%Q
  | NaN, NaN | PosInf, PosInf | NegInf, NegInf => True
  | _, _ => False
  end.



End JSNumber.
Export JSNumber(number, NaN, PosInf, NegInf, Fin).

(** ** JSON values and the conversions applied to them *)

Module JSValue.

(** A property value of static type [unknown], as [JSON.parse] builds it. *)
Inductive Json : Type :=
| JNull
| JBool (b : bool)
| JNum (n : number)
| JStr (s : jsstring)
| JArr (items : list Json)
| JObj (fields : list (jsstring * Json)).

(** Built-ins of the language whose algorithms are not part of the
    repository: the decimal rendering of a number ([String(n)] and
    [n.toFixed(d)]), the parsing of a numeric string and Unicode
    lower-casing. *)
Class Builtins := {
  NumberToString : number -> jsstring;
  toFixed : nat -> number -> jsstring;
  StringToNumber : jsstring -> number;
  toLowerCase : jsstring -> jsstring
}.

(** Truthiness, as tested by [if (v)], [v || d] and [Boolean(v)]. *)
Definition truthy (v : Json) : bool :=
  match v with
  | JNull => false
  | JBool b => b
  | JNum (Fin q) => negb (Qeq_bool q 0)
  | JNum NaN => false
  | JNum _ => true
  | JStr s => match s with [] => false | _ => true end
  | JArr _ | JObj _ => true
  end.

(** Truthiness of a property that may be absent ([undefined] is falsy). *)
Definition truthyOpt (v : option Json) : bool :=
  match v with Some j => truthy j | None => false end.

(** [v || d] *)
Definition orElse (v : option Json) (d : Json) : Json :=
  match v with
  | Some j => if truthy j then j else d
  | None => d
  end.

(** [typeof v === 'number' ? v : undefined] *)
Definition toNumber (v : option Json) : option number :=
  match v with Some (JNum n) => Some n | _ => None end.

(** [typeof v === 'string' ? v : undefined] *)
Definition toStringOpt (v : option Json) : option jsstring :=
  match v with Some (JStr s) => Some s | _ => None end.

Fixpoint join (sep : jsstring) (parts : list jsstring) : jsstring :=
  match parts with
  | [] => []
  | [p] => p
  | p :: rest => p ++ sep ++ join sep rest
  end.

Section WithBuiltins.
Context `{Builtins}.

(** [String(v)] *)
Fixpoint ToString (v : Json) : jsstring :=
  match v with
  | JNull => lit "null"
  | JBool true => lit "true"
  | JBool false => lit "false"
  | JNum n => NumberToString n
  | JStr s => s
  | JArr items =>
      join (lit ",")
        (List.map (fun i => match i with JNull => [] | _ => ToString i end) items)
  | JObj _ => lit "[object Object]"
  end.

(** [Number(v)] *)
Definition ToNumber (v : Json) : number :=
  match v with
  | JNull => Fin 0
  | JBool true => Fin 1
  | JBool false => Fin 0
  | JNum n => n
  | JStr s => StringToNumber s
  | JArr _ | JObj _ => StringToNumber (ToString v)
  end.

End WithBuiltins.

(** Decimal digits of a natural number, most significant first. *)
Fixpoint digitsFuel (fuel : nat) (base n : N) (acc : list N) : list N :=
  match fuel with
  | O => acc
  | S f =>
      let acc' := (n mod base)%N :: acc in
      if (n / base =? 0)%N then acc' else digitsFuel f base (n / base)%N acc'
  end.

Definition digits (base n : N) : list N :=
  digitsFuel (S (N.to_nat (N.log2 n))) base n [].

Definition digitChar (d : N) : CodeUnit :=
  if (d <? 10)%N then (48 + d)%N else (87 + d)%N.

(** [z.toString(radix)] for an integer [z]. *)
Definition integerToString (radix : N) (z : Z) : jsstring :=
  let body := List.map digitChar (digits radix (Z.to_N (Z.abs z))) in
  if (z <? 0)%Z then DASH :: body else body.

Definition asciiLower (c : CodeUnit) : CodeUnit :=
  if ((65 <=? c) && (c <=? 90))%N then (c + 32)%N else c.

(** An instance that agrees with the language on integers below 1e21 and on
    ASCII text, and is arbitrary elsewhere; it is what the examples
    evaluate with. *)
Definition integerBuiltins : Builtins := {|
  NumberToString n :=
    match n with
    | NaN => lit "NaN"
    | PosInf => lit "Infinity"
    | NegInf => lit "-Infinity"
    | Fin q =>
        let q' := Qred q in
        if (Qden q' =? 1)%positive then integerToString 10 (Qnum q')
        else integerToString 10 (Qnum q') ++ lit "/"
               ++ integerToString 10 (Zpos (Qden q'))
    end;
  toFixed _ n :=
    match n with
    | Fin q => integerToString 10 (Qfloor (q + (1 # 2)))
    | NaN => lit "NaN"
    | PosInf => lit "Infinity"
    | NegInf => lit "-Infinity"
    end;
  StringToNumber _ := NaN;
  toLowerCase := List.map asciiLower
|}.

End JSValue.
Export JSValue.

(** ** The document graph ([src/api.ts]) *)

Module Api.

Record BoundingBox := {
  x : number;
  y : number;
  width : number;
  height : number
}.

Record Color := {
  r : number;
  g : number;
  b : number;
  a : option number
}.

Record FigmaFill := {
  fill_type : jsstring;
  color : option Color;
  opacity : option number
}.

Record Offset := { offset_x : number; offset_y : number }.

Record FigmaEffect := {
  effect_type : jsstring;
  visible : bool;
  radius : option number;
  effect_color : option Color;
  offset : option Offset
}.

(** [FigmaNode]: the declared properties, and [rec] for the index signature
    [[key: string]: unknown] (padding, layout mode, corner radius, ...). *)
Inductive FigmaNode : Type := mkNode {
  id : jsstring;
  name : jsstring;
  type : jsstring;
  children : option (list FigmaNode);
  fills : option (list FigmaFill);
  strokes : option (list FigmaFill);
  effects : option (list FigmaEffect);
  style : option (gmap string Json);
  styles : option (list (jsstring * jsstring));
  absoluteBoundingBox : option BoundingBox;
  characters : option Json;
  rec : gmap string Json
}.

(** [Array.isArray(node.children) ? node.children : []] *)
Definition childList (n : FigmaNode) : list FigmaNode :=
  match children n with Some cs => cs | None => [] end.

(** A node with only the three mandatory properties and, possibly, children. *)
Definition plainNode (i nm ty : string) (cs : option (list FigmaNode)) : FigmaNode :=
  mkNode (lit i) (lit nm) (lit ty) cs None None None None None None None ∅.

(** Induction over the graph, with the hypothesis available for each child. *)
Section NodeInd.
Variable P : FigmaNode -> Prop.
Hypothesis Hleaf :
  forall n, children n = None -> P n.
Hypothesis Hnode :
  forall n cs, children n = Some cs -> Forall P cs -> P n.

Fixpoint FigmaNode_ind' (n : FigmaNode) : P n :=
  match n with
  | mkNode i nm ty cs fl st ef sy ss bb ch rc =>
      match cs as cs0 return P (mkNode i nm ty cs0 fl st ef sy ss bb ch rc) with
      | None => Hleaf (mkNode i nm ty None fl st ef sy ss bb ch rc) eq_refl
      | Some l =>
          Hnode (mkNode i nm ty (Some l) fl st ef sy ss bb ch rc) l eq_refl
            ((fix all (l : list FigmaNode) : Forall P l :=
                match l with
                | [] => @List.Forall_nil _ P
                | c :: r => @List.Forall_cons _ P c r (FigmaNode_ind' c) (all r)
                end) l)
      end
  end.
End NodeInd.

End Api.
Export Api.

(** ** Node utilities ([src/utils/nodes.ts]) *)

Module Nodes.

Record NodePathResult := {
  node : FigmaNode;
  parent : option FigmaNode;
  ancestors : list FigmaNode;
  page : option FigmaNode
}.

Inductive TreeNode : Type := mkTree {
  tree_id : jsstring;
  tree_name : jsstring;
  tree_type : jsstring;
  tree_children : list TreeNode
}.

Definition normalizeNodeId (nodeId : jsstring) : jsstring :=
  replaceDashes (trim nodeId).

(** The inner [walk] of [findNodePath]; [None] is the [null] result. *)
Fixpoint walk (targetId : jsstring) (n : FigmaNode) (anc : list FigmaNode)
    (par pg : option FigmaNode) : option NodePathResult :=
  let currentPage := if JSString.eqb (type n) (lit "CANVAS") then Some n else pg in
  if JSString.eqb (normalizeNodeId (id n)) targetId then
    Some {| node := n; parent := par; ancestors := anc; page := currentPage |}
  else
    match children n with
    | None => None
    | Some cs =>
        (fix each (cs : list FigmaNode) : option NodePathResult :=
           match cs with
           | [] => None
           | child :: rest =>
               match walk targetId child (anc ++ [n]) (Some n) currentPage with
               | Some result => Some result
               | None => each rest
               end
           end) cs
    end.

Definition findNodePath (root : FigmaNode) (nodeId : jsstring) : option NodePathResult :=
  let targetId := normalizeNodeId nodeId in
  walk targetId root [] None None.

(** [toTree]; [depth] is any integer. *)
Fixpoint toTree (n : FigmaNode) (depth : Z) : TreeNode :=
  let nextDepth := (depth - 1)%Z in
  let kids :=
    if (0 <? nextDepth)%Z then
      match children n with
      | Some cs => List.map (fun child => toTree child nextDepth) cs
      | None => []
      end
    else [] in
  {| tree_id := normalizeNodeId (id n);
     tree_name := name n;
     tree_type := type n;
     tree_children := kids |}.

Definition isDigit (c : CodeUnit) : bool := ((48 <=? c) && (c <=? 57))%N.

(** The nodes of a graph in depth-first pre-order, each with the chain of
    its ancestors from the root down to its parent. *)
Fixpoint preorderFrom (anc : list FigmaNode) (n : FigmaNode)
    : list (list FigmaNode * FigmaNode) :=
  (anc, n) ::
  match children n with
  | None => []
  | Some cs => List.flat_map (preorderFrom (anc ++ [n])) cs
  end.

Definition preorder (root : FigmaNode) : list (list FigmaNode * FigmaNode) :=
  preorderFrom [] root.

Definition isCanvas (n : FigmaNode) : bool := JSString.eqb (type n) (lit "CANVAS").

(** The last canvas of a chain, if any. *)
Definition lastCanvas (chain : list FigmaNode) : option FigmaNode :=
  List.find isCanvas (List.rev chain).

(** The nodes of a graph in depth-first pre-order. *)
Fixpoint nodesOf (n : FigmaNode) : list FigmaNode :=
  n ::
  match children n with
  | None => []
  | Some cs => List.flat_map nodesOf cs
  end.

(** The last element of a chain, if any. *)
Definition lastOf (chain : list FigmaNode) : option FigmaNode :=
  List.hd_error (List.rev chain).

(** The test of [walk] on an entry of the enumeration. *)
Definition matches (targetId : jsstring) (p : list FigmaNode * FigmaNode) : bool :=
  JSString.eqb (normalizeNodeId (id (snd p))) targetId.

(** The result made from an entry of the pre-order enumeration; the page is
    the last canvas on the chain that ends with the node itself. *)
Definition resultOf (p : list FigmaNode * FigmaNode) : NodePathResult :=
  {| node := snd p;
     parent := lastOf (fst p);
     ancestors := fst p;
     page := lastCanvas (fst p ++ [snd p]) |}.

(** What the projection keeps of a source node. *)
Definition projects (n : FigmaNode) (t : TreeNode) : Prop :=
  tree_id t = normalizeNodeId (id n) /\ tree_name t = name n /\ tree_type t = type n.

(** All nodes of a projection, root first. *)
Fixpoint treeNodes (t : TreeNode) : list TreeNode :=
  t :: List.flat_map treeNodes (tree_children t).

(** The test document of [tests/nodes.test.mjs]. *)
Definition titleNode : FigmaNode :=
  mkNode (lit "3:1") (lit "Title") (lit "TEXT") None None None None None None None
    (Some (JStr (lit "hello"))) ∅.
Definition frameNode : FigmaNode := plainNode "2:1" "Frame" "FRAME" (Some [titleNode]).
Definition pageNode : FigmaNode := plainNode "1:1" "Page A" "CANVAS" (Some [frameNode]).
Definition sampleDocument : FigmaNode := plainNode "0:0" "Document" "DOCUMENT" (Some [pageNode]).

End Nodes.

(** ** The style deriver ([src/commands/styles.ts]) *)

Module Styles.

Inductive PaddingSource := explicit | inferred | none.

Record PaddingValues := {
  top : option number;
  right : option number;
  bottom : option number;
  left : option number;
  source : PaddingSource
}.

Record Layout := {
  mode : option jsstring;
  itemSpacing : option number;
  primaryAxisAlignItems : option jsstring;
  counterAxisAlignItems : option jsstring;
  layoutWrap : option jsstring;
  layoutSizingHorizontal : option jsstring;
  layoutSizingVertical : option jsstring;
  padding : PaddingValues
}.

Record NodeStyleDetails := {
  css : gmap string jsstring;
  layout : Layout;
  details_absoluteBoundingBox : option BoundingBox;
  rawStyle : gmap string Json
}.

(** [s.padStart(2, '0')] *)
Definition padStart2 (s : jsstring) : jsstring :=
  match s with
  | [] => lit "00"
  | [c] => [48%N; c]
  | _ => s
  end.

(** [n.toString(16)] where [n] is the result of [Math.round], hence an
    integer or not finite. *)
Definition toString16 (n : number) : jsstring :=
  match n with
  | NaN => lit "NaN"
  | PosInf => lit "Infinity"
  | NegInf => lit "-Infinity"
  | Fin q => integerToString 16 (Qfloor q)
  end.

Definition toByteHex (n : number) : jsstring :=
  padStart2 (toString16 (JSNumber.round (JSNumber.mul n (Fin 255)))).

Definition toHex (r g b a : number) : jsstring :=
  let base := lit "#" ++ toByteHex r ++ toByteHex g ++ toByteHex b in
  if JSNumber.ltb a (Fin 1) then base ++ toByteHex a else base.

(** [typeof fill.opacity === 'number' ? fill.opacity : fill.color.a ?? 1] *)
Definition fillAlpha (fill : FigmaFill) (c : Color) : number :=
  match opacity fill with
  | Some o => o
  | None => match a c with Some al => al | None => Fin 1 end
  end.

Definition colorFromFill (fill : FigmaFill) : option jsstring :=
  if negb (JSString.eqb (fill_type fill) (lit "SOLID")) then None
  else match color fill with
       | None => None
       | Some c => Some (toHex (r c) (g c) (b c) (fillAlpha fill c))
       end.

(** The loop shared by [firstSolidFill] and [firstSolidStroke]. *)
Fixpoint firstColor (paints : list FigmaFill) : option jsstring :=
  match paints with
  | [] => None
  | fill :: rest =>
      match colorFromFill fill with
      | Some c => Some c
      | None => firstColor rest
      end
  end.

Definition firstSolidFill (n : FigmaNode) : option jsstring :=
  firstColor (match fills n with Some fs => fs | None => [] end).

Definition firstSolidStroke (n : FigmaNode) : option jsstring :=
  firstColor (match strokes n with Some fs => fs | None => [] end).

Definition inferPaddingNone : PaddingValues :=
  {| top := None; right := None; bottom := None; left := None; source := none |}.

Definition isSome {A} (o : option A) : bool :=
  match o with Some _ => true | None => false end.

(** The four gaps of one bounded child, as the loop body computes them. *)
Definition gapTop (pb cb : BoundingBox) : number := JSNumber.sub (y cb) (y pb).
Definition gapLeft (pb cb : BoundingBox) : number := JSNumber.sub (x cb) (x pb).
Definition gapRight (pb cb : BoundingBox) : number :=
  JSNumber.sub (JSNumber.add (x pb) (width pb)) (JSNumber.add (x cb) (width cb)).
Definition gapBottom (pb cb : BoundingBox) : number :=
  JSNumber.sub (JSNumber.add (y pb) (height pb)) (JSNumber.add (y cb) (height cb)).

(** The state of the loop: [minTop], [minRight], [minBottom], [minLeft]. *)
Record Mins := {
  minTop : number;
  minRight : number;
  minBottom : number;
  minLeft : number
}.

Definition minsStart : Mins :=
  {| minTop := PosInf; minRight := PosInf; minBottom := PosInf; minLeft := PosInf |}.

Definition minsStep (pb : BoundingBox) (m : Mins) (cb : BoundingBox) : Mins :=
  {| minTop := JSNumber.min (minTop m) (gapTop pb cb);
     minRight := JSNumber.min (minRight m) (gapRight pb cb);
     minBottom := JSNumber.min (minBottom m) (gapBottom pb cb);
     minLeft := JSNumber.min (minLeft m) (gapLeft pb cb) |}.

(** The boxes of [node.children.filter(child => Boolean(child.absoluteBoundingBox))]. *)
Fixpoint boundedChildren (cs : list FigmaNode) : list BoundingBox :=
  match cs with
  | [] => []
  | c :: rest =>
      match absoluteBoundingBox c with
      | Some bb => bb :: boundedChildren rest
      | None => boundedChildren rest
      end
  end.

(** [Math.round(v * 100) / 100] *)
Definition round2 (v : number) : number :=
  JSNumber.div (JSNumber.round (JSNumber.mul v (Fin 100))) (Fin 100).

(** [!Number.isFinite(value) || value < 0] *)
Definition badGap (v : number) : bool :=
  negb (JSNumber.isFinite v) || JSNumber.ltb v (Fin 0).

Definition inferPaddingFromChildren (n : FigmaNode) : PaddingValues :=
  let e_top := toNumber (rec n !! "paddingTop") in
  let e_right := toNumber (rec n !! "paddingRight") in
  let e_bottom := toNumber (rec n !! "paddingBottom") in
  let e_left := toNumber (rec n !! "paddingLeft") in
  if isSome e_top || isSome e_right || isSome e_bottom || isSome e_left then
    {| top := e_top; right := e_right; bottom := e_bottom; left := e_left;
       source := explicit |}
  else
    match absoluteBoundingBox n, children n with
    | Some parentBounds, Some (c :: cs) =>
        match boundedChildren (c :: cs) with
        | [] => inferPaddingNone
        | bounded =>
            let m := List.fold_left (minsStep parentBounds) bounded minsStart in
            if List.existsb badGap [minTop m; minRight m; minBottom m; minLeft m] then
              inferPaddingNone
            else
              {| top := Some (round2 (minTop m));
                 right := Some (round2 (minRight m));
                 bottom := Some (round2 (minBottom m));
                 left := Some (round2 (minLeft m));
                 source := inferred |}
        end
    | _, _ => inferPaddingNone
    end.

(** The minimum over a list of gaps, starting from [+Infinity]. *)
Definition minOver (gaps : list number) : number :=
  List.fold_left JSNumber.min gaps PosInf.


(** Finite and not negative. *)
Definition nonNegative (v : number) : Prop :=
  exists q, v = Fin q /\ (0 <= q)%Q.

(** The two nodes of the padding tests: explicit padding 12, 16, 12, 16;
    and a parent at (0, 0, 100, 100) with one child at (10, 20, 80, 60). *)
Definition explicitCard : FigmaNode :=
  mkNode (lit "1:1") (lit "Card") (lit "FRAME") (Some []) None None None None None
    None None
    {[ "paddingTop" := JNum (Fin 12); "paddingRight" := JNum (Fin 16);
       "paddingBottom" := JNum (Fin 12); "paddingLeft" := JNum (Fin 16) ]}.

Definition contentBounds : BoundingBox :=
  {| x := Fin 10; y := Fin 20; width := Fin 80; height := Fin 60 |}.

Definition cardBounds : BoundingBox :=
  {| x := Fin 0; y := Fin 0; width := Fin 100; height := Fin 100 |}.

Definition inferredCard : FigmaNode :=
  mkNode (lit "2:1") (lit "Card") (lit "FRAME")
    (Some [mkNode (lit "2:2") (lit "Content") (lit "FRAME") (Some []) None None None
             None None (Some contentBounds) None ∅])
    None None None None None (Some cardBounds) None ∅.

Section WithBuiltins.
Context `{Builtins}.

Definition px (n : number) : jsstring := NumberToString n ++ lit "px".

(** [numberPx] *)
Definition numberPx (v : option Json) : option jsstring :=
  match v with Some (JNum n) => Some (px n) | _ => None end.

Definition shadowOf (effect : FigmaEffect) : jsstring :=
  let sx := match offset effect with Some o => offset_x o | None => Fin 0 end in
  let sy := match offset effect with Some o => offset_y o | None => Fin 0 end in
  let blur := match radius effect with Some rd => rd | None => Fin 0 end in
  let col :=
    match effect_color effect with
    | Some c => toHex (r c) (g c) (b c) (match a c with Some al => al | None => Fin 1 end)
    | None => lit "#00000033"
    end in
  px sx ++ lit " " ++ px sy ++ lit " " ++ px blur ++ lit " " ++ col.

Definition boxShadowFromEffects (effs : option (list FigmaEffect)) : option jsstring :=
  match effs with
  | None => None
  | Some l =>
      let shadows :=
        List.map shadowOf
          (List.filter
             (fun e => visible e && JSString.eqb (effect_type e) (lit "DROP_SHADOW")) l) in
      match shadows with
      | [] => None
      | _ => Some (join (lit ", ") shadows)
      end
  end.

(** [if (cond) css[key] = value] *)
Definition setWhen (cond : bool) (key : string) (value : jsstring)
    (m : gmap string jsstring) : gmap string jsstring :=
  if cond then <[key := value]> m else m.

(** Truthiness of a string that may be undefined. *)
Definition truthyStr (value : option jsstring) : bool :=
  match value with
  | Some (_ :: _) => true
  | _ => false
  end.

Definition strOf (value : option jsstring) : jsstring :=
  match value with Some v => v | None => [] end.

(** [if (value) css[key] = value] for a string that may be undefined. *)
Definition setSome (key : string) (value : option jsstring)
    (m : gmap string jsstring) : gmap string jsstring :=
  setWhen (truthyStr value) key (strOf value) m.

Definition styleField (n : FigmaNode) (key : string) : option Json :=
  match style n with Some st => st !! key | None => None end.

(** [if (style.k) css[cssKey] = render(style.k)] *)
Definition setTypo (n : FigmaNode) (key cssKey : string) (render : Json -> jsstring)
    (m : gmap string jsstring) : gmap string jsstring :=
  match styleField n key with
  | Some v => setWhen (truthy v) cssKey (render v) m
  | None => m
  end.

Definition or0 (v : option number) : number :=
  match v with Some n => n | None => Fin 0 end.

Definition buildStyleDetails (n : FigmaNode) : NodeStyleDetails :=
  let background := firstSolidFill n in
  let stroke := firstSolidStroke n in
  let boxShadow := boxShadowFromEffects (effects n) in
  let pad := inferPaddingFromChildren n in
  let css0 : gmap string jsstring := ∅ in
  let css1 :=
    if JSString.eqb (type n) (lit "TEXT") && truthyStr background then
      <["color" := strOf background]> css0
    else if truthyStr background then
      <["background-color" := strOf background]> css0
    else css0 in
  let css2 :=
    if truthyStr stroke then
      <["border-style" := lit "solid"]> (<["border-color" := strOf stroke]> css1)
    else css1 in
  let css3 := setTypo n "fontFamily" "font-family" ToString css2 in
  let css4 := setTypo n "fontSize" "font-size" (fun v => ToString v ++ lit "px") css3 in
  let css5 := setTypo n "fontWeight" "font-weight" ToString css4 in
  let css6 := setTypo n "lineHeightPx" "line-height" (fun v => ToString v ++ lit "px") css5 in
  let css7 := setTypo n "letterSpacing" "letter-spacing" (fun v => ToString v ++ lit "px") css6 in
  let css8 := setTypo n "textAlignHorizontal" "text-align" (fun v => toLowerCase (ToString v)) css7 in
  let css9 :=
    match absoluteBoundingBox n with
    | Some bb => <["height" := px (height bb)]> (<["width" := px (width bb)]> css8)
    | None => css8
    end in
  let layoutMode := ToString (orElse (rec n !! "layoutMode") (JStr [])) in
  let isVertical := JSString.eqb layoutMode (lit "VERTICAL") in
  let css10 :=
    if JSString.eqb layoutMode (lit "HORIZONTAL") || isVertical then
      <["flex-direction" := if isVertical then lit "column" else lit "row"]>
        (<["display" := lit "flex"]> css9)
    else css9 in
  let css11 := setSome "gap" (numberPx (rec n !! "itemSpacing")) css10 in
  let css12 :=
    setWhen (isSome (top pad) || isSome (right pad) || isSome (bottom pad) || isSome (left pad))
      "padding"
      (px (or0 (top pad)) ++ lit " " ++ px (or0 (right pad)) ++ lit " "
         ++ px (or0 (bottom pad)) ++ lit " " ++ px (or0 (left pad)))
      css11 in
  let css13 := setSome "border-radius" (numberPx (rec n !! "cornerRadius")) css12 in
  let css14 :=
    match rec n !! "opacity" with
    | Some (JNum o) => <["opacity" := NumberToString o]> css13
    | _ => css13
    end in
  let css15 := setSome "box-shadow" boxShadow css14 in
  {| css := css15;
     layout :=
       {| mode := toStringOpt (rec n !! "layoutMode");
          itemSpacing := toNumber (rec n !! "itemSpacing");
          primaryAxisAlignItems := toStringOpt (rec n !! "primaryAxisAlignItems");
          counterAxisAlignItems := toStringOpt (rec n !! "counterAxisAlignItems");
          layoutWrap := toStringOpt (rec n !! "layoutWrap");
          layoutSizingHorizontal := toStringOpt (rec n !! "layoutSizingHorizontal");
          layoutSizingVertical := toStringOpt (rec n !! "layoutSizingVertical");
          padding := pad |};
     details_absoluteBoundingBox := absoluteBoundingBox n;
     rawStyle := match style n with Some st => st | None => ∅ end |}.

Definition buildCssMap (n : FigmaNode) : gmap string jsstring :=
  css (buildStyleDetails n).

(** The typography fields: the key in the style block, the CSS property
    and the rendering of the value. *)
Definition typography : list (string * string * (Json -> jsstring)) :=
  [ ("fontFamily", "font-family", ToString);
    ("fontSize", "font-size", fun v => ToString v ++ lit "px");
    ("fontWeight", "font-weight", ToString);
    ("lineHeightPx", "line-height", fun v => ToString v ++ lit "px");
    ("letterSpacing", "letter-spacing", fun v => ToString v ++ lit "px");
    ("textAlignHorizontal", "text-align", fun v => toLowerCase (ToString v)) ].

(** What a typography field contributes: its rendering when the field is
    present and truthy, nothing otherwise. *)
Definition emitted (n : FigmaNode) (key : string) (render : Json -> jsstring)
    : option jsstring :=
  match styleField n key with
  | Some v => if truthy v then Some (render v) else None
  | None => None
  end.

(** A text node whose style block is [{ letterSpacing: 0 }]. *)
Definition zeroSpacingText : FigmaNode :=
  mkNode (lit "3:1") (lit "Title") (lit "TEXT") None None None None
    (Some {[ "letterSpacing" := JNum (Fin 0) ]}) None None None ∅.

(** A text node styled [{ fontFamily: "Inter", fontSize: 14,
    textAlignHorizontal: "LEFT" }]. *)
Definition styledText : FigmaNode :=
  mkNode (lit "3:1") (lit "Title") (lit "TEXT") None None None None
    (Some {[ "fontFamily" := JStr (lit "Inter");
             "fontSize" := JNum (Fin 14);
             "textAlignHorizontal" := JStr (lit "LEFT") ]})
    None None None ∅.

End WithBuiltins.

End Styles.

(** ** The diff engine ([src/commands/diff.ts]) *)

Module Diff.

Record NodeSnapshot := {
  snap_id : jsstring;
  snap_name : jsstring;
  snap_type : jsstring;
  snap_width : option number;
  snap_height : option number;
  layoutMode : option jsstring;
  itemSpacing : option number;
  paddingTop : option number;
  paddingRight : option number;
  paddingBottom : option number;
  paddingLeft : option number;
  childCount : nat;
  textContent : jsstring;
  textStyles : list jsstring;
  fillColors : list jsstring
}.

Definition toByteHex (n : number) : jsstring :=
  Styles.padStart2 (Styles.toString16 (JSNumber.round (JSNumber.mul n (Fin 255)))).

Definition toHex (r g b a : number) : jsstring :=
  let base := lit "#" ++ toByteHex r ++ toByteHex g ++ toByteHex b in
  if JSNumber.ltb a (Fin 1) then base ++ toByteHex a else base.

(** What [toHex] appends for the alpha channel. *)
Definition alphaSuffix (a : number) : jsstring :=
  if JSNumber.ltb a (Fin 1) then toByteHex a else [].

(** [new Set(xs).has(item)] *)
Definition has (xs : list jsstring) (item : jsstring) : bool :=
  List.existsb (JSString.eqb item) xs.

(** [set.add(item)]: a set keeps its members in insertion order. *)
Definition setAdd (item : jsstring) (xs : list jsstring) : list jsstring :=
  if has xs item then xs else xs ++ [item].

(** Lexicographic order on code units, the order of [Array.prototype.sort]
    without a comparator. *)
Fixpoint lexLeb (s t : jsstring) : bool :=
  match s, t with
  | [], _ => true
  | _ :: _, [] => false
  | c :: s', d :: t' =>
      if (c <? d)%N then true
      else if (d <? c)%N then false
      else lexLeb s' t'
  end.

Definition lexLe (s t : jsstring) : Prop := lexLeb s t = true.

#[global] Instance lexLe_dec : RelDecision lexLe :=
  fun s t => bool_eq_dec (lexLeb s t) true.

(** [Array.from(set).sort()] *)
Definition sortStrings (xs : list jsstring) : list jsstring :=
  merge_sort lexLe xs.

(** Pre-order traversal threading the state the visitor updates. *)
Fixpoint traverse {S : Type} (fn : FigmaNode -> S -> S) (n : FigmaNode) (st : S) : S :=
  let st' := fn n st in
  match children n with
  | None => st'
  | Some cs => List.fold_left (fun acc child => traverse fn child acc) cs st'
  end.

Definition firstSolidFillColor (n : FigmaNode) : option jsstring :=
  match fills n with
  | None => None
  | Some fs =>
      match List.find (fun fill => JSString.eqb (fill_type fill) (lit "SOLID")
                                   && Styles.isSome (color fill)) fs with
      | Some fill =>
          match color fill with
          | Some c => Some (toHex (r c) (g c) (b c) (Styles.fillAlpha fill c))
          | None => None
          end
      | None => None
      end
  end.

(** Two nodes filled with the same red at alpha 0.5 and at alpha 0.501. *)
Definition redAt (alpha : Q) : FigmaFill :=
  {| fill_type := lit "SOLID";
     color := Some {| r := Fin 1; g := Fin 0; b := Fin 0; a := Some (Fin alpha) |};
     opacity := None |}.

Definition filledWith (fill : FigmaFill) : FigmaNode :=
  mkNode (lit "1:1") (lit "Card") (lit "FRAME") None (Some [fill])
    None None None None None None ∅.

(** [arrayDiff] *)
Record ArrayDiff := { added : list jsstring; removed : list jsstring }.

Definition arrayDiff (before after : list jsstring) : ArrayDiff :=
  {| added := List.filter (fun item => negb (has before item)) after;
     removed := List.filter (fun item => negb (has after item)) before |}.

Section WithBuiltins.
Context `{Builtins}.

Definition styleSignature (n : FigmaNode) : option jsstring :=
  if negb (JSString.eqb (type n) (lit "TEXT")) then None
  else
    let family := ToString (orElse (Styles.styleField n "fontFamily") (JStr (lit "Unknown"))) in
    let weight := ToString (orElse (Styles.styleField n "fontWeight") (JStr [])) in
    let size := ToString (orElse (Styles.styleField n "fontSize") (JStr [])) in
    let lineHeight := ToString (orElse (Styles.styleField n "lineHeightPx") (JStr [])) in
    Some (family ++ lit "|" ++ weight ++ lit "|" ++ size ++ lit "|" ++ lineHeight).

(** The three accumulators of [snapshot]. *)
Record Collected := {
  textParts : list jsstring;
  styleSet : list jsstring;
  fillSet : list jsstring
}.

Definition visit (item : FigmaNode) (acc : Collected) : Collected :=
  let parts :=
    if JSString.eqb (type item) (lit "TEXT") then
      let text := trim (ToString (orElse (characters item) (JStr []))) in
      match text with
      | [] => textParts acc
      | _ => textParts acc ++ [text]
      end
    else textParts acc in
  let sigs :=
    match styleSignature item with
    | Some (c :: sig) => setAdd (c :: sig) (styleSet acc)
    | _ => styleSet acc
    end in
  let cols :=
    match firstSolidFillColor item with
    | Some (c :: fill) => setAdd (c :: fill) (fillSet acc)
    | _ => fillSet acc
    end in
  {| textParts := parts; styleSet := sigs; fillSet := cols |}.

Definition snapshot (n : FigmaNode) : NodeSnapshot :=
  let acc := traverse visit n {| textParts := []; styleSet := []; fillSet := [] |} in
  {| snap_id := id n;
     snap_name := name n;
     snap_type := type n;
     snap_width := option_map width (absoluteBoundingBox n);
     snap_height := option_map height (absoluteBoundingBox n);
     layoutMode := toStringOpt (rec n !! "layoutMode");
     itemSpacing := toNumber (rec n !! "itemSpacing");
     paddingTop := toNumber (rec n !! "paddingTop");
     paddingRight := toNumber (rec n !! "paddingRight");
     paddingBottom := toNumber (rec n !! "paddingBottom");
     paddingLeft := toNumber (rec n !! "paddingLeft");
     childCount := List.length (childList n);
     textContent := join [10%N] (textParts acc);
     textStyles := sortStrings (styleSet acc);
     fillColors := sortStrings (fillSet acc) |}.

End WithBuiltins.

(** The [styles] part of the result of [buildDiff]. *)
Record StylesDiff := {
  textStylesAddedInB : list jsstring;
  textStylesRemovedFromA : list jsstring;
  fillColorsAddedInB : list jsstring;
  fillColorsRemovedFromA : list jsstring
}.

Definition buildDiffStyles (a b : NodeSnapshot) : StylesDiff :=
  let ts := arrayDiff (textStyles a) (textStyles b) in
  let fc := arrayDiff (fillColors a) (fillColors b) in
  {| textStylesAddedInB := added ts;
     textStylesRemovedFromA := removed ts;
     fillColorsAddedInB := added fc;
     fillColorsRemovedFromA := removed fc |}.

End Diff.

(** ** Export options ([src/commands/export.ts]) *)

Module ExportCmd.

(** The outcome of a call that may throw. *)
Inductive Outcome (A : Type) : Type :=
| Returns (value : A)
| Throws (message : jsstring).
Arguments Returns {A} value.
Arguments Throws {A} message.

Definition resolveExportScale (scaleOption : option number) (retina : option bool)
    : Outcome number :=
  let scale :=
    match scaleOption with
    | Some s => s
    | None => match retina with Some true => Fin 3 | _ => Fin 2 end
    end in
  if negb (JSNumber.isFinite scale) || JSNumber.ltb scale (Fin 1)
     || JSNumber.gtb scale (Fin 4)
  then Throws (lit "Scale must be between 1 and 4.")
  else Returns scale.

(** The scale the specification resolves: the explicit one when given,
    otherwise 3 with the retina flag and 2 without. *)
Definition resolvedScale (scaleOption : option number) (retina : option bool) : number :=
  match scaleOption, retina with
  | Some s, _ => s
  | None, Some true => Fin 3
  | None, _ => Fin 2
  end.

(** Finite and within 1 to 4, both ends included. *)
Definition validScale (n : number) : Prop :=
  exists q, n = Fin q /\ (1 <= q)%Q /\ (q <= 4)%Q.

Definition throws {A} (o : Outcome A) : Prop :=
  match o with Throws _ => True | Returns _ => False end.

End ExportCmd.

(** ** The audit engine (the pure core of [runAudit]) *)

Module Audit.

Inductive Severity := error | warning | info.

Record Issue := {
  severity : Severity;
  message : jsstring;
  details : option jsstring
}.

Record Stats := {
  totalNodes : nat;
  components : nat;
  componentInstances : nat;
  detachedInstances : nat;
  frames : nat;
  textNodes : nat;
  uniqueColors : nat;
  uniqueFonts : nat;
  uniqueFontSizes : nat;
  stylesUsed : nat;
  unstyled : nat
}.

Record AuditResult := {
  score : Z;
  issues : list Issue;
  stats : Stats
}.

(** What the traversal accumulates: the counters of [result.stats] that the
    callback increments, the four sets and [unstyledNodes]. *)
Record Acc := {
  acc_totalNodes : nat;
  acc_components : nat;
  acc_componentInstances : nat;
  acc_frames : nat;
  acc_textNodes : nat;
  colors : list jsstring;
  fonts : list jsstring;
  fontSizes : list number;
  stylesUsedSet : list jsstring;
  unstyledNodes : list jsstring
}.

Definition accStart : Acc :=
  {| acc_totalNodes := 0; acc_components := 0; acc_componentInstances := 0;
     acc_frames := 0; acc_textNodes := 0; colors := []; fonts := [];
     fontSizes := []; stylesUsedSet := []; unstyledNodes := [] |}.

Definition rgbaToHex (r g b a : number) : jsstring :=
  let toHex := fun n : number =>
    Styles.padStart2 (Styles.toString16 (JSNumber.round (JSNumber.mul n (Fin 255)))) in
  lit "#" ++ toHex r ++ toHex g ++ toHex b.

(** Membership in a [Set<number>] (SameValueZero: NaN is equal to itself). *)
Definition sameValueZero (a b : number) : bool :=
  match a, b with
  | NaN, NaN => true
  | _, _ => JSNumber.eqb a b
  end.

Definition addNumber (v : number) (xs : list number) : list number :=
  if List.existsb (sameValueZero v) xs then xs else xs ++ [v].

Definition isSolid (fill : FigmaFill) : bool :=
  JSString.eqb (fill_type fill) (lit "SOLID").

(** The body of the loop over [node.fills]. *)
Definition addFillColor (cs : list jsstring) (fill : FigmaFill) : list jsstring :=
  match color fill with
  | Some c =>
      if isSolid fill then
        Diff.setAdd
          (rgbaToHex (r c) (g c) (b c) (match a c with Some al => al | None => Fin 1 end))
          cs
      else cs
  | None => cs
  end.

Definition bump (cond : bool) (k : nat) : nat := if cond then S k else k.

(** [traverseNodes] *)
Fixpoint traverseNodes {S : Type} (callback : FigmaNode -> S -> S) (n : FigmaNode)
    (st : S) : S :=
  let st' := callback n st in
  match children n with
  | None => st'
  | Some cs => List.fold_left (fun acc child => traverseNodes callback child acc) cs st'
  end.

Section WithBuiltins.
Context `{Builtins}.

(** The callback passed to [traverseNodes]. *)
Definition visit (n : FigmaNode) (acc : Acc) : Acc :=
  let isType := fun t : string => JSString.eqb (type n) (lit t) in
  let textStyle := if isType "TEXT" then style n else None in
  {| acc_totalNodes := S (acc_totalNodes acc);
     acc_components := bump (isType "COMPONENT") (acc_components acc);
     acc_componentInstances := bump (isType "INSTANCE") (acc_componentInstances acc);
     acc_frames := bump (isType "FRAME") (acc_frames acc);
     acc_textNodes := bump (isType "TEXT") (acc_textNodes acc);
     colors :=
       match fills n with
       | Some fs => List.fold_left addFillColor fs (colors acc)
       | None => colors acc
       end;
     fonts :=
       match textStyle with
       | Some st =>
           match st !! "fontFamily" with
           | Some v => if truthy v then Diff.setAdd (ToString v) (fonts acc) else fonts acc
           | None => fonts acc
           end
       | None => fonts acc
       end;
     fontSizes :=
       match textStyle with
       | Some st =>
           match st !! "fontSize" with
           | Some v => if truthy v then addNumber (ToNumber v) (fontSizes acc)
                       else fontSizes acc
           | None => fontSizes acc
           end
       | None => fontSizes acc
       end;
     stylesUsedSet :=
       match styles n with
       | Some ss => List.fold_left (fun s kv => Diff.setAdd (snd kv) s) ss (stylesUsedSet acc)
       | None => stylesUsedSet acc
       end;
     unstyledNodes :=
       if (isType "TEXT" || isType "RECTANGLE" || isType "ELLIPSE")
          && negb (Styles.isSome (styles n))
          && match fills n with Some fs => List.existsb isSolid fs | None => false end
       then unstyledNodes acc ++ [name n]
       else unstyledNodes acc |}.

Definition statsOf (acc : Acc) : Stats :=
  {| totalNodes := acc_totalNodes acc;
     components := acc_components acc;
     componentInstances := acc_componentInstances acc;
     detachedInstances := 0;
     frames := acc_frames acc;
     textNodes := acc_textNodes acc;
     uniqueColors := List.length (colors acc);
     uniqueFonts := List.length (fonts acc);
     uniqueFontSizes := List.length (fontSizes acc);
     stylesUsed := List.length (stylesUsedSet acc);
     unstyled := List.length (unstyledNodes acc) |}.

(** The running [result.score] and [result.issues]. *)
Definition Running : Type := Z * list Issue.

(** [if (cond) { result.issues.push(issue); result.score -= amount; }] *)
Definition deduct (cond : bool) (amount : Z) (issue : Issue) (run : Running) : Running :=
  if cond then ((fst run - amount)%Z, snd run ++ [issue]) else run.

Definition count (k : nat) : jsstring := NumberToString (JSNumber.ofNat k).

(** [instances / Math.max(totalNodes, 1)] *)
Definition componentRatio (acc : Acc) : number :=
  JSNumber.div (JSNumber.ofNat (acc_componentInstances acc))
    (JSNumber.max (JSNumber.ofNat (acc_totalNodes acc)) (Fin 1)).

(** The rules of [runAudit], applied in the order of the source. *)
Definition applyRules (acc : Acc) (definedStylesCount : nat) : Running :=
  let run0 : Running := (100%Z, []) in
  let run1 :=
    deduct (20 <? List.length (colors acc)) 10
      {| severity := warning;
         message := lit "High color count (" ++ count (List.length (colors acc))
                      ++ lit " unique colors)";
         details := Some (lit "Consider consolidating into a design system palette") |}
      run0 in
  let run2 :=
    deduct (3 <? List.length (fonts acc)) 10
      {| severity := warning;
         message := lit "Too many font families (" ++ count (List.length (fonts acc))
                      ++ lit ")";
         details := Some (join (lit ", ") (List.firstn 5 (fonts acc))) |}
      run1 in
  let run3 :=
    deduct (10 <? List.length (fontSizes acc)) 5
      {| severity := info;
         message := lit "Many font sizes (" ++ count (List.length (fontSizes acc))
                      ++ lit " variations)";
         details := Some (lit "Consider using a type scale") |}
      run2 in
  let ratio := componentRatio acc in
  let run4 :=
    deduct (JSNumber.ltb ratio (Fin (1 # 10)) && (50 <? acc_totalNodes acc)) 10
      {| severity := warning;
         message := lit "Low component usage";
         details := Some (lit "Only " ++ toFixed 1 (JSNumber.mul ratio (Fin 100))
                            ++ lit "% of nodes are component instances") |}
      run3 in
  let run5 :=
    deduct (10 <? List.length (unstyledNodes acc)) 5
      {| severity := info;
         message := count (List.length (unstyledNodes acc)) ++ lit " elements without styles";
         details := Some (lit "Consider applying shared styles for consistency") |}
      run4 in
  let run6 :=
    deduct ((acc_components acc =? 0) && (20 <? acc_totalNodes acc)) 15
      {| severity := warning;
         message := lit "No components defined";
         details := Some (lit "Creating components enables reusability") |}
      run5 in
  let run7 :=
    deduct ((definedStylesCount =? 0) && (10 <? acc_totalNodes acc)) 10
      {| severity := warning;
         message := lit "No styles defined in file";
         details := Some (lit "Styles help maintain design consistency") |}
      run6 in
  run7.

(** From the accumulated state to the audit result, with the final clamp
    [Math.max(0, result.score)]. *)
Definition conclude (acc : Acc) (definedStylesCount : nat) : AuditResult :=
  let run := applyRules acc definedStylesCount in
  {| score := Z.max 0 (fst run);
     issues := snd run;
     stats := statsOf acc |}.

(** The audit of the subtree rooted at [auditRoot], in a file that defines
    [definedStylesCount] shared styles. *)
Definition audit (auditRoot : FigmaNode) (definedStylesCount : nat) : AuditResult :=
  conclude (traverseNodes visit auditRoot accStart) definedStylesCount.

End WithBuiltins.

(** A frame without fills, and the same frame with one opaque red fill. *)
Definition bareFrame : FigmaNode := plainNode "1:1" "Card" "FRAME" None.

Definition redFill : FigmaFill :=
  {| fill_type := lit "SOLID";
     color := Some {| r := Fin 1; g := Fin 0; b := Fin 0; a := Some (Fin 1) |};
     opacity := None |}.

Definition redFrame : FigmaNode :=
  mkNode (lit "1:1") (lit "Card") (lit "FRAME") None (Some [redFill])
    None None None None None None ∅.

(** The same accumulated state with another set of colors. *)
Definition withColors (acc : Acc) (cs : list jsstring) : Acc :=
  {| acc_totalNodes := acc_totalNodes acc;
     acc_components := acc_components acc;
     acc_componentInstances := acc_componentInstances acc;
     acc_frames := acc_frames acc;
     acc_textNodes := acc_textNodes acc;
     colors := cs;
     fonts := fonts acc;
     fontSizes := fontSizes acc;
     stylesUsedSet := stylesUsedSet acc;
     unstyledNodes := unstyledNodes acc |}.

(** The score as the specification words it: 100, less each deduction whose
    condition holds, not below 0. *)
Definition when (cond : bool) (amount : Z) : Z := if cond then amount else 0%Z.

Definition specifiedScore (s : Stats) (definedStylesCount : nat) : Z :=
  let ratioBelowTenPercent :=
    10 * componentInstances s <? Nat.max (totalNodes s) 1 in
  let deductions : list Z :=
    [ when (20 <? uniqueColors s) 10%Z;
      when (3 <? uniqueFonts s) 10%Z;
      when (10 <? uniqueFontSizes s) 5%Z;
      when (ratioBelowTenPercent && (50 <? totalNodes s)) 10%Z;
      when (10 <? unstyled s) 5%Z;
      when ((components s =? 0) && (20 <? totalNodes s)) 15%Z;
      when ((definedStylesCount =? 0) && (10 <? totalNodes s)) 10%Z ] in
  Z.max 0 (List.fold_left Z.sub deductions 100%Z).

End Audit.

(** ** Node utilities, continued ([src/utils/nodes.ts]) *)

Module NodeIndex.
Import Nodes.

Definition COMMA : CodeUnit := 44%N.

(** [s.split(sep)] for a separator of one code unit; the empty string
    splits into one empty part. *)
Fixpoint splitOn (sep : CodeUnit) (s : jsstring) : list jsstring :=
  match s with
  | [] => [[]]
  | c :: rest =>
      if (c =? sep)%N then [] :: splitOn sep rest
      else match splitOn sep rest with
           | part :: parts => (c :: part) :: parts
           | [] => [[c]]
           end
  end.

(** [Boolean(s)] for a string. *)
Definition nonEmpty (s : jsstring) : bool :=
  match s with [] => false | _ => true end.

Definition parseNodeIdsCsv (value : jsstring) : list jsstring :=
  List.filter nonEmpty (List.map normalizeNodeId (splitOn COMMA value)).

Fixpoint startsWith (s prefix : jsstring) : bool :=
  match prefix, s with
  | [], _ => true
  | _ :: _, [] => false
  | p :: prefix', c :: s' => (c =? p)%N && startsWith s' prefix'
  end.

(** [hay.includes(needle)] *)
Fixpoint includes (hay needle : jsstring) : bool :=
  startsWith hay needle
  || match hay with
     | [] => false
     | _ :: rest => includes rest needle
     end.

Section WithBuiltins.
Context `{Builtins}.

Definition findPageNode (document : FigmaNode) (pageFilter : jsstring)
    : ExportCmd.Outcome FigmaNode :=
  let pages := childList document in
  let lower := toLowerCase pageFilter in
  match List.find (fun page => JSString.eqb (toLowerCase (name page)) lower) pages with
  | Some exact => ExportCmd.Returns exact
  | None =>
      match List.find (fun page => includes (toLowerCase (name page)) lower) pages with
      | Some partial => ExportCmd.Returns partial
      | None =>
          let available := join (lit ", ") (List.firstn 15 (List.map name pages)) in
          ExportCmd.Throws
            (lit "Page " ++ [34%N] ++ pageFilter ++ [34%N]
               ++ lit " not found. Available pages: " ++ available)
      end
  end.

End WithBuiltins.

(** The inner [walk] of [buildParentMap], threading the map. *)
Fixpoint walkParents (n : FigmaNode) (parentId : option jsstring)
    (parents : gmap jsstring (option jsstring)) : gmap jsstring (option jsstring) :=
  let normalizedId := normalizeNodeId (id n) in
  let parents' := <[normalizedId := parentId]> parents in
  match children n with
  | None => parents'
  | Some cs =>
      List.fold_left (fun m child => walkParents child (Some normalizedId) m) cs parents'
  end.

Definition buildParentMap (root : FigmaNode) : gmap jsstring (option jsstring) :=
  walkParents root None ∅.

(** [parentMap.get(nodeId)]: [undefined] for a missing key and for a key
    mapped to [undefined] alike. *)
Definition getParent (parents : gmap jsstring (option jsstring)) (nodeId : jsstring)
    : option jsstring :=
  match parents !! nodeId with Some v => v | None => None end.

Definition normalizedId (n : FigmaNode) : jsstring := normalizeNodeId (id n).

(** The entry [buildParentMap] writes for a node of the enumeration. *)
Definition parentIdOf (p : list FigmaNode * FigmaNode) : option jsstring :=
  option_map normalizedId (lastOf (fst p)).

(** One [parents.set] of the walk. *)
Definition insertEntry (m : gmap jsstring (option jsstring))
    (p : list FigmaNode * FigmaNode) : gmap jsstring (option jsstring) :=
  <[normalizedId (snd p) := parentIdOf p]> m.

(** Each element of the chain is a child of the one before it. *)
Fixpoint linked (chain : list FigmaNode) : Prop :=
  match chain with
  | p :: ((q :: _) as rest) => In q (childList p) /\ linked rest
  | _ => True
  end.

(** Number of levels of a graph and of a projection. *)
Fixpoint nodeHeight (n : FigmaNode) : nat :=
  S (match children n with
     | None => 0
     | Some cs => List.fold_right (fun c acc => Nat.max (nodeHeight c) acc) 0 cs
     end).

Fixpoint treeHeight (t : TreeNode) : nat :=
  S (List.fold_right (fun c acc => Nat.max (treeHeight c) acc) 0 (tree_children t)).

(** What a projection shows of a node. *)
Definition shown (n : FigmaNode) : jsstring * jsstring * jsstring :=
  (normalizeNodeId (id n), name n, type n).

Definition shownOfTree (t : TreeNode) : jsstring * jsstring * jsstring :=
  (tree_id t, tree_name t, tree_type t).

End NodeIndex.

(** ** Shapes of values, for stating what the functions keep *)

Module Shape.

Definition isHexDigit (c : CodeUnit) : bool :=
  ((48 <=? c) && (c <=? 57) || (97 <=? c) && (c <=? 102))%N.

(** A channel value between 0 and 1. *)
Definition unitInterval (n : number) : Prop :=
  exists q, n = Fin q /\ (0 <= q)%Q /\ (q <= 1)%Q.

(** A whole, non-negative number of hundredths. *)
Definition hundredths (v : option number) : Prop :=
  exists z : Z, (0 <= z)%Z /\ v = Some (Fin (inject_Z z / 100)).

(** The byte check behind the well-formedness of hex colors. *)
Definition byteIsTwoHexDigits (z : Z) : bool :=
  let s := Styles.padStart2 (integerToString 16 z) in
  (List.length s =? 2) && List.forallb isHexDigit s.

Definition hasType (t : string) (n : FigmaNode) : bool :=
  JSString.eqb (type n) (lit t).

(** What holds of the running score and issues after any number of rules. *)
Definition coherent (run : Audit.Running) : Prop :=
  (fst run <= 100)%Z
  /\ (fst run = 100%Z <-> snd run = [])
  /\ Forall (fun i => Audit.severity i <> Audit.error) (snd run)
  /\ (100 - 15 * Z.of_nat (List.length (snd run)) <= fst run)%Z.

End Shape.

(** ** The diff report ([buildDiff] of [src/commands/diff.ts]) *)

Module DiffReport.
Import Diff.

(** A value of one of the layout keys of a snapshot. *)
Inductive LayoutValue : Type :=
| LNumber (value : option number)
| LString (value : option jsstring)
| LCount (value : nat).

(** [a !== b] on two values of the same key. *)
Definition differs (a b : LayoutValue) : bool :=
  match a, b with
  | LNumber (Some x), LNumber (Some y) => negb (JSNumber.eqb x y)
  | LNumber None, LNumber None => false
  | LString (Some x), LString (Some y) => negb (JSString.eqb x y)
  | LString None, LString None => false
  | LCount x, LCount y => negb (x =? y)
  | _, _ => true
  end.

(** [layoutKeys], each with the way to read it from a snapshot. *)
Definition layoutKeys : list (string * (NodeSnapshot -> LayoutValue)) :=
  [ ("width", fun s => LNumber (snap_width s));
    ("height", fun s => LNumber (snap_height s));
    ("layoutMode", fun s => LString (layoutMode s));
    ("itemSpacing", fun s => LNumber (itemSpacing s));
    ("paddingTop", fun s => LNumber (paddingTop s));
    ("paddingRight", fun s => LNumber (paddingRight s));
    ("paddingBottom", fun s => LNumber (paddingBottom s));
    ("paddingLeft", fun s => LNumber (paddingLeft s));
    ("childCount", fun s => LCount (childCount s)) ].

Record LayoutEntry := {
  entry_key : string;
  entry_a : LayoutValue;
  entry_b : LayoutValue
}.

Record TextDiff := {
  changed : bool;
  aLength : nat;
  bLength : nat;
  aPreview : jsstring;
  bPreview : jsstring
}.

Record DiffResult := {
  nodes_a : jsstring * jsstring * jsstring;
  nodes_b : jsstring * jsstring * jsstring;
  text : TextDiff;
  styles : StylesDiff;
  layout : list LayoutEntry
}.

Definition buildDiff (a b : NodeSnapshot) : DiffResult :=
  let layoutDiff :=
    List.flat_map
      (fun kv : string * (NodeSnapshot -> LayoutValue) =>
         let (key, read) := kv in
         if differs (read a) (read b)
         then [ {| entry_key := key; entry_a := read a; entry_b := read b |} ]
         else [])
      layoutKeys in
  {| nodes_a := (snap_id a, snap_name a, snap_type a);
     nodes_b := (snap_id b, snap_name b, snap_type b);
     text :=
       {| changed := negb (JSString.eqb (textContent a) (textContent b));
          aLength := List.length (textContent a);
          bLength := List.length (textContent b);
          aPreview := List.firstn 180 (textContent a);
          bPreview := List.firstn 180 (textContent b) |};
     styles := buildDiffStyles a b;
     layout := layoutDiff |}.

(** No numeric layout field of the snapshot is NaN. *)
Definition numbersComparable (s : NodeSnapshot) : Prop :=
  Forall (fun v => v <> Some NaN)
    [ snap_width s; snap_height s; itemSpacing s;
      paddingTop s; paddingRight s; paddingBottom s; paddingLeft s ].

End DiffReport.

(** ** Text extraction and previews (the text, comments and inspect commands) *)

Module TextCmd.
Import Nodes.

Record TextNodeEntry := {
  entry_id : jsstring;
  entry_name : jsstring;
  entry_page : jsstring;
  entry_text : jsstring
}.

(** Every maximal run of code units satisfying [inRun] becomes one
    [replacement]: [s.replace(/[...]+/g, replacement)]. *)
Fixpoint collapseRuns (inRun : CodeUnit -> bool) (replacement : CodeUnit)
    (inside : bool) (s : jsstring) : jsstring :=
  match s with
  | [] => []
  | c :: rest =>
      if inRun c then
        if inside then collapseRuns inRun replacement true rest
        else replacement :: collapseRuns inRun replacement true rest
      else c :: collapseRuns inRun replacement false rest
  end.

Definition SPACE : CodeUnit := 32%N.

Section WithBuiltins.
Context `{Builtins}.

(** [String(node.characters || '').trim()], and whether it is pushed. *)
Definition textOf (n : FigmaNode) : list jsstring :=
  if JSString.eqb (type n) (lit "TEXT") then
    match trim (ToString (orElse (characters n) (JStr []))) with
    | [] => []
    | text => [text]
    end
  else [].

(** [collectTextNodes] of the text command. *)
Fixpoint collectTextNodes (n : FigmaNode) (page : jsstring) (out : list TextNodeEntry)
    : list TextNodeEntry :=
  let out' :=
    if JSString.eqb (type n) (lit "TEXT") then
      match trim (ToString (orElse (characters n) (JStr []))) with
      | [] => out
      | text =>
          out ++ [ {| entry_id := id n; entry_name := name n;
                      entry_page := page; entry_text := text |} ]
      end
    else out in
  match children n with
  | None => out'
  | Some cs =>
      List.fold_left
        (fun acc child =>
           let nextPage :=
             if JSString.eqb (type child) (lit "CANVAS") then name child else page in
           collectTextNodes child nextPage acc)
        cs out'
  end.

(** [collectText] of the inspect command and [collectNodeText] of the
    comments command, which are the same function. *)
Fixpoint collectText (n : FigmaNode) (out : list jsstring) : list jsstring :=
  let out' :=
    if JSString.eqb (type n) (lit "TEXT") then
      match trim (ToString (orElse (characters n) (JStr []))) with
      | [] => out
      | text => out ++ [text]
      end
    else out in
  match children n with
  | None => out'
  | Some cs => List.fold_left (fun acc child => collectText child acc) cs out'
  end.

End WithBuiltins.

(** [parts.join(' ')], whitespace runs collapsed to one space, trimmed. *)
Definition combine (parts : list jsstring) : jsstring :=
  trim (collapseRuns isWhiteSpace SPACE false (join [SPACE] parts)).

(** [buildTextPreview] of the inspect command; [maxLength] is at least 1. *)
Definition buildTextPreview (parts : list jsstring) (maxLength : nat) : jsstring :=
  let combined := combine parts in
  match combined with
  | [] => []
  | _ =>
      if List.length combined <=? maxLength then combined
      else List.firstn (maxLength - 1) combined ++ lit "..."
  end.

(** [buildNodeTextPreview] of the comments command, from the collected
    parts; the ellipsis is the single code unit U+2026. *)
Definition buildNodeTextPreview (parts : list jsstring) (maxLength : nat)
    : option jsstring :=
  match parts with
  | [] => None
  | _ =>
      let combined := combine parts in
      match combined with
      | [] => None
      | _ =>
          if List.length combined <=? maxLength then Some combined
          else Some (List.firstn (maxLength - 1) combined ++ [8230%N])
      end
  end.

(** [buildChildren] of the inspect command; a [ChildNodeSummary] has the
    fields of a [TreeNode]. *)
Fixpoint buildChildren (n : FigmaNode) (depth : Z) : list TreeNode :=
  if (depth <=? 0)%Z then []
  else
    match children n with
    | None => []
    | Some cs =>
        List.map
          (fun child =>
             {| tree_id := normalizeNodeId (id child);
                tree_name := name child;
                tree_type := type child;
                tree_children := buildChildren child (depth - 1) |})
          cs
    end.

End TextCmd.

(** ** Cropping and file names ([src/commands/export.ts]) *)

Module ExportMore.
Import ExportCmd.

Record CropRect := {
  crop_x : number;
  crop_y : number;
  crop_width : number;
  crop_height : number
}.

(** [a <= b]; false when either side is NaN. *)
Definition leb (a b : number) : bool :=
  match a, b with
  | NaN, _ | _, NaN => false
  | Fin x, Fin y => Qle_bool x y
  | NegInf, _ => true
  | _, PosInf => true
  | _, _ => false
  end.

(** [Math.floor] *)
Definition floor (a : number) : number :=
  match a with
  | Fin x => Fin (inject_Z (Qfloor x))
  | _ => a
  end.

Section WithBuiltins.
Context `{Builtins}.

Definition parseCropRect (value : jsstring) : Outcome CropRect :=
  let parts :=
    List.map (fun part => StringToNumber (trim part))
      (NodeIndex.splitOn NodeIndex.COMMA value) in
  if negb (List.length parts =? 4)
     || List.existsb (fun part => negb (JSNumber.isFinite part)) parts
  then Throws (lit "Invalid --crop value. Expected format: x,y,width,height")
  else
    match parts with
    | [cx; cy; cw; ch] =>
        if leb cw (Fin 0) || leb ch (Fin 0)
        then Throws (lit "Crop width and height must be greater than 0.")
        else Returns {| crop_x := cx; crop_y := cy; crop_width := cw; crop_height := ch |}
    | _ => Throws (lit "Invalid --crop value. Expected format: x,y,width,height")
    end.

End WithBuiltins.

(** The region copied by [applyPngCrop] out of an image of the given size:
    the offsets and the size passed to [PNG.bitblt]. *)
Record Region := {
  region_x : number;
  region_y : number;
  finalWidth : number;
  finalHeight : number
}.

Definition cropRegion (imageWidth imageHeight : number) (crop : CropRect)
    : Outcome Region :=
  let rx := JSNumber.max (Fin 0) (floor (crop_x crop)) in
  let ry := JSNumber.max (Fin 0) (floor (crop_y crop)) in
  let w := JSNumber.max (Fin 1) (floor (crop_width crop)) in
  let h := JSNumber.max (Fin 1) (floor (crop_height crop)) in
  let maxWidth := JSNumber.max (Fin 0) (JSNumber.sub imageWidth rx) in
  let maxHeight := JSNumber.max (Fin 0) (JSNumber.sub imageHeight ry) in
  let fw := JSNumber.min w maxWidth in
  let fh := JSNumber.min h maxHeight in
  if leb fw (Fin 0) || leb fh (Fin 0)
  then Throws (lit "Crop rectangle falls outside exported image bounds.")
  else Returns {| region_x := rx; region_y := ry; finalWidth := fw; finalHeight := fh |}.

(** The characters replaced first: less-than, greater-than, colon, double
    quote, slash, backslash, vertical bar, question mark and asterisk. *)
Definition isReserved (c : CodeUnit) : bool :=
  List.existsb (N.eqb c) [60; 62; 58; 34; 47; 92; 124; 63; 42]%N.

Definition isDash (c : CodeUnit) : bool := (c =? DASH)%N.

(** [s.replace(/^-|-$/g, '')]: one dash less at the start and, in what
    follows it, one dash less at the end. *)
Definition dropLastDash (s : jsstring) : jsstring :=
  match List.rev s with
  | c :: rest => if isDash c then List.rev rest else s
  | [] => s
  end.

Definition stripDashEnds (s : jsstring) : jsstring :=
  match s with
  | c :: rest => if isDash c then dropLastDash rest else dropLastDash s
  | [] => []
  end.

(** The four replacements of [sanitizeFilename], before the lower-casing. *)
Definition sanitizeStem (name : jsstring) : jsstring :=
  let step1 := List.map (fun c => if isReserved c then DASH else c) name in
  let step2 := TextCmd.collapseRuns isWhiteSpace DASH false step1 in
  let step3 := TextCmd.collapseRuns isDash DASH false step2 in
  stripDashEnds step3.

Definition sanitizeFilename `{Builtins} (name : jsstring) : jsstring :=
  toLowerCase (sanitizeStem name).

Definition startsWithDash (s : jsstring) : bool :=
  match s with c :: _ => isDash c | [] => false end.

(** No two dashes in a row. *)
Fixpoint noDoubleDash (s : jsstring) : Prop :=
  match s with
  | c :: ((d :: _) as rest) => ~ (isDash c = true /\ isDash d = true) /\ noDoubleDash rest
  | _ => True
  end.

End ExportMore.

(** * Properties *)

(** ** Facts about strings *)

Module JSStringFacts.

Lemma eqb_eq a b : eqb a b = true <-> a = b.
Proof. unfold eqb; destruct (jsstring_eq_dec a b); split; congruence. Qed.

Lemma eqb_refl a : eqb a a = true.
Proof. now apply eqb_eq. Qed.

Lemma trimStart_head s : headNotWs (trimStart s).
Proof.
  induction s as [|c r IH]; simpl; [exact I|].
  destruct (isWhiteSpace c) eqn:E; [exact IH | exact E].
Qed.

Lemma trimStart_fixed s : headNotWs s -> trimStart s = s.
Proof. destruct s as [|c r]; simpl; [reflexivity|]. now intros ->. Qed.

Lemma trimStart_idem s : trimStart (trimStart s) = trimStart s.
Proof. apply trimStart_fixed, trimStart_head. Qed.

Lemma trimEnd_idem s : trimEnd (trimEnd s) = trimEnd s.
Proof.
  induction s as [|c r IH]; simpl; [reflexivity|].
  destruct (trimEnd r) as [|d r'] eqn:E.
  - destruct (isWhiteSpace c) eqn:W; simpl; [reflexivity | now rewrite W].
  - change (trimEnd (c :: d :: r') = c :: d :: r').
    change (match trimEnd (d :: r') with
            | [] => if isWhiteSpace c then [] else [c]
            | x :: y => c :: x :: y end = c :: d :: r').
    now rewrite IH.
Qed.

Lemma trim_comm s : trimStart (trimEnd s) = trimEnd (trimStart s).
Proof.
  induction s as [|c r IH]; simpl; [reflexivity|].
  destruct (isWhiteSpace c) eqn:W.
  - destruct (trimEnd r) as [|d r'] eqn:E; simpl.
    + now rewrite <- IH.
    + rewrite W. exact IH.
  - destruct (trimEnd r) as [|d r'] eqn:E; simpl; now rewrite W, ?E.
Qed.

Lemma trim_idem s : trim (trim s) = trim s.
Proof.
  unfold trim.
  now rewrite (trim_comm (trimStart s)), trimStart_idem, trimEnd_idem.
Qed.

Lemma trimEnd_app_ws s w :
  Forall (fun c => isWhiteSpace c = true) w -> trimEnd (s ++ w) = trimEnd s.
Proof.
  intros Hw. induction s as [|c r IH]; simpl.
  - induction Hw as [|d w' Hd _ IHw]; simpl; [reflexivity|].
    now rewrite IHw, Hd.
  - now rewrite IH.
Qed.

Lemma trimStart_ws_app w s :
  Forall (fun c => isWhiteSpace c = true) w -> trimStart (w ++ s) = trimStart s.
Proof. induction 1 as [|d w' Hd _ IHw]; simpl; [reflexivity|]. now rewrite Hd. Qed.

Lemma trimEnd_nows s :
  Forall (fun c => isWhiteSpace c = false) s -> trimEnd s = s.
Proof.
  induction 1 as [|c r Hc _ IH]; simpl; [reflexivity|].
  rewrite IH. destruct r; [now rewrite Hc | reflexivity].
Qed.

Lemma trimEnd_rev_head s : headNotWs (List.rev (trimEnd s)).
Proof.
  induction s as [|c r IH]; simpl; [exact I|].
  destruct (trimEnd r) as [|d r'] eqn:E.
  - destruct (isWhiteSpace c) eqn:W; simpl; [exact I | exact W].
  - simpl in *. destruct (List.rev r' ++ [d]) eqn:E2; simpl.
    + now destruct (List.rev r').
    + exact IH.
Qed.

Lemma trim_Trimmed s : Trimmed (trim s).
Proof.
  split.
  - unfold trim. rewrite <- trim_comm. apply trimStart_head.
  - apply trimEnd_rev_head.
Qed.

Lemma replaceDashes_ws c :
  isWhiteSpace (if (c =? DASH)%N then COLON else c) = isWhiteSpace c.
Proof. destruct (N.eqb_spec c DASH) as [->|]; reflexivity. Qed.

Lemma trimStart_replaceDashes s :
  trimStart (replaceDashes s) = replaceDashes (trimStart s).
Proof.
  induction s as [|c r IH]; simpl; [reflexivity|].
  rewrite replaceDashes_ws. now destruct (isWhiteSpace c).
Qed.

Lemma trimEnd_replaceDashes s :
  trimEnd (replaceDashes s) = replaceDashes (trimEnd s).
Proof.
  induction s as [|c r IH]; simpl; [reflexivity|].
  rewrite IH, replaceDashes_ws.
  destruct (trimEnd r); simpl; [now destruct (isWhiteSpace c) | reflexivity].
Qed.

Lemma replaceDashes_idem s : replaceDashes (replaceDashes s) = replaceDashes s.
Proof.
  unfold replaceDashes. rewrite List.map_map. apply List.map_ext.
  intros c. destruct (N.eqb_spec c DASH); [reflexivity|].
  now destruct (N.eqb_spec c DASH).
Qed.

Lemma replaceDashes_no_dash s : ~ In DASH (replaceDashes s).
Proof.
  unfold replaceDashes. rewrite in_map_iff. intros [c [H _]].
  destruct (N.eqb_spec c DASH); [discriminate | congruence].
Qed.

Lemma replaceDashes_fixed s : ~ In DASH s -> replaceDashes s = s.
Proof.
  induction s as [|c r IH]; simpl; [reflexivity|].
  intros H. destruct (N.eqb_spec c DASH) as [->|].
  - exfalso. apply H. now left.
  - f_equal. apply IH. intros H'. apply H. now right.
Qed.

Lemma replaceDashes_Trimmed s : Trimmed s -> Trimmed (replaceDashes s).
Proof.
  intros [H1 H2]. split.
  - destruct s as [|c r]; simpl in *; [exact I|]. now rewrite replaceDashes_ws.
  - unfold replaceDashes. rewrite <- List.map_rev.
    destruct (List.rev s) as [|c r]; simpl in *; [exact I|].
    now rewrite replaceDashes_ws.
Qed.

End JSStringFacts.
Export JSStringFacts.

(** ** Facts about numbers *)

Module JSNumberFacts.
Import JSNumber.

Lemma Qltb_lt a b : Qltb a b = true <-> (a < b)%Q.
Proof.
  unfold Qltb. rewrite negb_true_iff. split.
  - intros H. apply Qnot_le_lt. intros Hle.
    apply Qle_bool_iff in Hle. congruence.
  - intros H. destruct (Qle_bool b a) eqn:E; [|reflexivity].
    apply Qle_bool_iff in E. exfalso. exact (Qlt_not_le _ _ H E).
Qed.

Lemma Qltb_ge a b : Qltb a b = false <-> (b <= a)%Q.
Proof.
  unfold Qltb. rewrite negb_false_iff. apply Qle_bool_iff.
Qed.








Lemma min_NaN_l b : min NaN b = NaN.
Proof. reflexivity. Qed.



End JSNumberFacts.

(** ** Node identifiers, path resolution and projection *)

Module NodesFacts.
Import Nodes.

Lemma normalizeNodeId_no_dash s : ~ In DASH (normalizeNodeId s).
Proof. apply replaceDashes_no_dash. Qed.

Lemma normalizeNodeId_Trimmed s : Trimmed (normalizeNodeId s).
Proof. apply replaceDashes_Trimmed, trim_Trimmed. Qed.

Lemma normalizeNodeId_idem s :
  normalizeNodeId (normalizeNodeId s) = normalizeNodeId s.
Proof.
  unfold normalizeNodeId, trim.
  rewrite trimStart_replaceDashes, trimEnd_replaceDashes, replaceDashes_idem.
  fold (trim (trimEnd (trimStart s))). fold (trim s).
  now rewrite trim_idem.
Qed.

Lemma isDigit_not_ws c : isDigit c = true -> isWhiteSpace c = false.
Proof.
  unfold isDigit, isWhiteSpace. intros H.
  apply andb_true_iff in H as [H1 H2].
  apply N.leb_le in H1, H2.
  repeat match goal with
  | |- context [(?a <=? ?b)%N] => destruct (N.leb_spec a b)
  | |- context [(?a =? ?b)%N] => destruct (N.eqb_spec a b)
  end; simpl; try reflexivity; lia.
Qed.

Lemma isDigit_not_dash c : isDigit c = true -> c <> DASH.
Proof.
  unfold isDigit, DASH. intros H ->. discriminate.
Qed.

Lemma normalize_two_parts ws1 p q ws2 :
  Forall (fun c => isWhiteSpace c = true) ws1 ->
  Forall (fun c => isWhiteSpace c = true) ws2 ->
  Forall (fun c => isDigit c = true) p ->
  Forall (fun c => isDigit c = true) q ->
  normalizeNodeId (ws1 ++ p ++ [DASH] ++ q ++ ws2) = p ++ [COLON] ++ q.
Proof.
  intros H1 H2 Hp Hq. unfold normalizeNodeId, trim.
  rewrite trimStart_ws_app by assumption.
  assert (Hbody : Forall (fun c => isWhiteSpace c = false) (p ++ [DASH] ++ q)).
  { apply List.Forall_app. split.
    - eapply List.Forall_impl; [|exact Hp]. apply isDigit_not_ws.
    - constructor; [reflexivity|].
      eapply List.Forall_impl; [|exact Hq]. apply isDigit_not_ws. }
  replace (p ++ [DASH] ++ q ++ ws2) with ((p ++ [DASH] ++ q) ++ ws2)
    by now rewrite <- !app_assoc.
  rewrite trimStart_fixed.
  2:{ destruct p as [|c p']; simpl; [reflexivity|].
      inversion Hp; subst. now apply isDigit_not_ws. }
  rewrite trimEnd_app_ws, trimEnd_nows by assumption.
  unfold replaceDashes. rewrite !List.map_app. simpl.
  f_equal; [|f_equal];
    (rewrite <- (List.map_id) ; apply List.map_ext_in; intros c Hc).
  - rewrite List.Forall_forall in Hp.
    destruct (N.eqb_spec c DASH) as [->|]; [|reflexivity].
    apply Hp, isDigit_not_dash in Hc. congruence.
  - rewrite List.Forall_forall in Hq.
    destruct (N.eqb_spec c DASH) as [->|]; [|reflexivity].
    apply Hq, isDigit_not_dash in Hc. congruence.
Qed.

End NodesFacts.

(** C5. Node-ID normalization is idempotent on every string; a two-part
    identifier written with a dash, with any whitespace around it, is
    normalized to the same two parts joined by a colon; and
    [normalize("2070-20929")] is ["2070:20929"]. *)
Theorem normalizeNodeId_idempotent_canonical :
  (forall s, Nodes.normalizeNodeId (Nodes.normalizeNodeId s) = Nodes.normalizeNodeId s)
  /\ (forall ws1 p q ws2,
        Forall (fun c => isWhiteSpace c = true) ws1 ->
        Forall (fun c => isWhiteSpace c = true) ws2 ->
        Forall (fun c => Nodes.isDigit c = true) p ->
        Forall (fun c => Nodes.isDigit c = true) q ->
        Nodes.normalizeNodeId (ws1 ++ p ++ [DASH] ++ q ++ ws2) = p ++ [COLON] ++ q)
  /\ Nodes.normalizeNodeId (lit "2070-20929") = lit "2070:20929".
Proof.
  split; [exact NodesFacts.normalizeNodeId_idem|].
  split; [exact NodesFacts.normalize_two_parts|].
  reflexivity.
Qed.

Lemma normalizeNodeId_idempotent_canonical_witness :
  Nodes.normalizeNodeId (lit " 12-345  ") = lit "12:345".
Proof.
  apply (proj1 (proj2 normalizeNodeId_idempotent_canonical)
           (lit " ") (lit "12") (lit "345") (lit "  "));
    repeat constructor.
Defined.

Module PathFacts.
Import Nodes.

Lemma lastOf_snoc chain n : lastOf (chain ++ [n]) = Some n.
Proof. unfold lastOf. now rewrite List.rev_app_distr. Qed.

Lemma lastCanvas_snoc chain n :
  lastCanvas (chain ++ [n]) = if isCanvas n then Some n else lastCanvas chain.
Proof. unfold lastCanvas. now rewrite List.rev_app_distr. Qed.

Lemma find_app {A} (f : A -> bool) l1 l2 :
  List.find f (l1 ++ l2) =
  match List.find f l1 with Some v => Some v | None => List.find f l2 end.
Proof.
  induction l1 as [|v l1 IH]; simpl; [reflexivity|]. now destruct (f v).
Qed.

Lemma walk_preorder targetId n :
  forall anc,
    walk targetId n anc (lastOf anc) (lastCanvas anc) =
    option_map resultOf (List.find (matches targetId) (preorderFrom anc n)).
Proof.
  induction n as [n Hc | n cs Hc IH] using FigmaNode_ind'; intros anc.
  - destruct n as [i nm ty ch fl st ef sy ss bb chs rc]; simpl in Hc; subst ch.
    simpl. unfold matches at 1; simpl.
    destruct (JSString.eqb (normalizeNodeId i) targetId); [|reflexivity].
    unfold resultOf; simpl. now rewrite lastCanvas_snoc.
  - destruct n as [i nm ty ch fl st ef sy ss bb chs rc]; simpl in Hc; subst ch.
    set (n := mkNode i nm ty (Some cs) fl st ef sy ss bb chs rc) in *.
    change (walk targetId n anc (lastOf anc) (lastCanvas anc)) with
      (if JSString.eqb (normalizeNodeId i) targetId
       then Some {| node := n; parent := lastOf anc; ancestors := anc;
                    page := if JSString.eqb ty (lit "CANVAS") then Some n else lastCanvas anc |}
       else
         (fix each (cs : list FigmaNode) : option NodePathResult :=
            match cs with
            | [] => None
            | child :: rest =>
                match walk targetId child (anc ++ [n]) (Some n)
                        (if JSString.eqb ty (lit "CANVAS") then Some n else lastCanvas anc) with
                | Some result => Some result
                | None => each rest
                end
            end) cs).
    change (preorderFrom anc n) with
      ((anc, n) :: List.flat_map (preorderFrom (anc ++ [n])) cs).
    simpl List.find. unfold matches at 1. simpl snd.
    change (id n) with i.
    destruct (JSString.eqb (normalizeNodeId i) targetId).
    + unfold resultOf; simpl. rewrite lastCanvas_snoc. reflexivity.
    + assert (Hpar : Some n = lastOf (anc ++ [n])) by now rewrite lastOf_snoc.
      assert (Hpg : (if JSString.eqb ty (lit "CANVAS") then Some n else lastCanvas anc)
                    = lastCanvas (anc ++ [n])) by now rewrite lastCanvas_snoc.
      rewrite Hpg, Hpar. clear Hpar Hpg.
      generalize (anc ++ [n]). clearbody n. intros chain.
      induction IH as [|c rest Hc' _ IHrest]; simpl; [reflexivity|].
      rewrite find_app, Hc'.
      destruct (List.find (matches targetId) (preorderFrom chain c)); simpl;
        [reflexivity | exact IHrest].
Qed.

Lemma findNodePath_preorder root nodeId :
  findNodePath root nodeId =
  option_map resultOf
    (List.find (matches (normalizeNodeId nodeId)) (preorder root)).
Proof. unfold findNodePath, preorder. exact (walk_preorder _ root []). Qed.

End PathFacts.

Module TreeFacts.
Import Nodes.

Lemma toTree_unfold n depth :
  toTree n depth =
  {| tree_id := normalizeNodeId (id n);
     tree_name := name n;
     tree_type := type n;
     tree_children :=
       if (0 <? depth - 1)%Z
       then List.map (fun child => toTree child (depth - 1)) (childList n)
       else [] |}.
Proof.
  destruct n as [i nm ty ch fl st ef sy ss bb chs rc].
  destruct ch as [cs|]; simpl; [reflexivity|].
  now destruct (0 <? depth - 1)%Z.
Qed.

Lemma nodesOf_unfold n :
  nodesOf n = n :: List.flat_map nodesOf (childList n).
Proof.
  destruct n as [i nm ty ch fl st ef sy ss bb chs rc].
  now destruct ch.
Qed.

Lemma treeNodes_unfold t :
  treeNodes t = t :: List.flat_map treeNodes (tree_children t).
Proof. now destruct t. Qed.

Lemma nodesOf_child n c m :
  In c (childList n) -> In m (nodesOf c) -> In m (nodesOf n).
Proof.
  intros Hc Hm. rewrite nodesOf_unfold. right.
  apply List.in_flat_map. now exists c.
Qed.

Lemma preorder_nodes n : forall anc,
  List.map snd (preorderFrom anc n) = nodesOf n.
Proof.
  induction n as [n Hc | n cs Hc IH] using FigmaNode_ind'; intros anc.
  - destruct n as [i nm ty ch fl st ef sy ss bb chs rc]; simpl in Hc; subst ch.
    reflexivity.
  - destruct n as [i nm ty ch fl st ef sy ss bb chs rc]; simpl in Hc; subst ch.
    simpl. f_equal.
    match goal with |- context [preorderFrom ?ch] => generalize ch end.
    intros chain.
    induction IH as [|c rest Hc' _ IHrest]; simpl; [reflexivity|].
    now rewrite List.map_app, Hc', IHrest.
Qed.

Lemma toTree_nodes_project root :
  forall depth t,
    In t (treeNodes (toTree root depth)) ->
    exists n, In n (nodesOf root) /\ projects n t.
Proof.
  induction root as [n Hc | n cs Hc IH] using FigmaNode_ind';
    intros depth t Ht; rewrite treeNodes_unfold, toTree_unfold in Ht;
    simpl in Ht; unfold childList in Ht; rewrite Hc in Ht.
  - exists n. split; [rewrite nodesOf_unfold; now left|].
    destruct (0 <? depth - 1)%Z; simpl in Ht;
      destruct Ht as [<- | []]; now repeat split.
  - destruct Ht as [<- | Ht].
    { exists n. split; [rewrite nodesOf_unfold; now left | now repeat split]. }
    destruct (0 <? depth - 1)%Z; [|destruct Ht].
    apply List.in_flat_map in Ht as [t' [Ht' Ht]].
    apply List.in_map_iff in Ht' as [c [<- Hin]].
    rewrite List.Forall_forall in IH.
    destruct (IH c Hin _ _ Ht) as [m [Hm Hp]].
    exists m. split; [|exact Hp].
    apply (nodesOf_child n c m); [|exact Hm].
    unfold childList. now rewrite Hc.
Qed.

End TreeFacts.

(** C2 (as amended).  Path resolution returns the first node, in depth-first
    pre-order, whose normalized id equals the normalized target, with its
    direct parent, its chain of ancestors from the root down to the parent,
    and as page the nearest canvas on the chain that ends with the matched
    node itself; it returns [None] when no node matches.  On the test
    document, resolving ["3-1"] gives node Title, parent 2:1, page 1:1 and
    ancestors 0:0, 1:1, 2:1. *)
Theorem findNodePath_first_in_preorder :
  forall root nodeId,
    Nodes.findNodePath root nodeId =
      option_map Nodes.resultOf
        (List.find (Nodes.matches (Nodes.normalizeNodeId nodeId)) (Nodes.preorder root))
    /\ List.map snd (Nodes.preorder root) = Nodes.nodesOf root
    /\ exists res,
         Nodes.findNodePath Nodes.sampleDocument (lit "3-1") = Some res
         /\ name (Nodes.node res) = lit "Title"
         /\ option_map id (Nodes.parent res) = Some (lit "2:1")
         /\ option_map id (Nodes.page res) = Some (lit "1:1")
         /\ List.map id (Nodes.ancestors res) = [lit "0:0"; lit "1:1"; lit "2:1"].
Proof.
  intros root nodeId. split; [apply PathFacts.findNodePath_preorder|].
  split; [apply TreeFacts.preorder_nodes|].
  eexists. split; [vm_compute; reflexivity|].
  repeat split.
Qed.

(** C2, as first stated, fails: when the matched node is itself a canvas the
    page returned is that node, which is not one of its ancestors. *)
Lemma findNodePath_page_is_not_an_ancestor :
  ~ (forall root nodeId res,
       Nodes.findNodePath root nodeId = Some res ->
       Nodes.page res = Nodes.lastCanvas (Nodes.ancestors res)).
Proof.
  intros claim.
  specialize (claim Nodes.sampleDocument (lit "1-1") _ eq_refl).
  vm_compute in claim. discriminate claim.
Qed.

(** C6.  For a positive depth the projection keeps the (normalized) id, the
    name and the type of the node; its children are the projections of the
    node's children at [depth - 1], and there are none when [depth] is 1;
    depth 1 returns the root alone; the test document at depth 2 has the
    single child Page A, whose own children list is empty. *)
Theorem toTree_depth_bounded :
  (forall n depth,
      (0 < depth)%Z ->
      Nodes.tree_id (Nodes.toTree n depth) = Nodes.normalizeNodeId (id n)
      /\ Nodes.tree_name (Nodes.toTree n depth) = name n
      /\ Nodes.tree_type (Nodes.toTree n depth) = type n
      /\ Nodes.tree_children (Nodes.toTree n depth) =
           if (depth =? 1)%Z then []
           else List.map (fun child => Nodes.toTree child (depth - 1)) (childList n))
  /\ (forall n,
        Nodes.toTree n 1 =
        Nodes.mkTree (Nodes.normalizeNodeId (id n)) (name n) (type n) [])
  /\ List.map (fun t => (Nodes.tree_name t, Nodes.tree_children t))
        (Nodes.tree_children (Nodes.toTree Nodes.sampleDocument 2))
      = [(lit "Page A", [])].
Proof.
  split; [|split].
  - intros n depth Hpos. rewrite TreeFacts.toTree_unfold. simpl.
    repeat split.
    destruct (Z.eqb_spec depth 1) as [->|Hne]; [reflexivity|].
    destruct (Z.ltb_spec 0 (depth - 1)); [reflexivity | lia].
  - intros n. now rewrite TreeFacts.toTree_unfold.
  - reflexivity.
Qed.

Lemma toTree_depth_bounded_witness :
  Nodes.tree_children (Nodes.toTree Nodes.sampleDocument 2) =
  [Nodes.toTree Nodes.pageNode 1].
Proof.
  exact (proj2 (proj2 (proj2
    (proj1 toTree_depth_bounded Nodes.sampleDocument 2%Z eq_refl)))).
Defined.

(** C10.  Every node of a projection, at every level, carries the name and
    type of a node of the source graph and the normalization of that node's
    id; such an id has no dash and no whitespace at either end.  This holds
    for every depth; for a depth of zero or less the projection is the root
    alone with no children. *)
Theorem toTree_ids_normalized :
  forall root depth,
    Forall
      (fun t =>
         (exists n, In n (Nodes.nodesOf root) /\ Nodes.projects n t)
         /\ ~ In DASH (Nodes.tree_id t)
         /\ Trimmed (Nodes.tree_id t))
      (Nodes.treeNodes (Nodes.toTree root depth))
    /\ ((depth <= 0)%Z ->
        Nodes.toTree root depth =
        Nodes.mkTree (Nodes.normalizeNodeId (id root)) (name root) (type root) []).
Proof.
  intros root depth. split.
  - apply List.Forall_forall. intros t Ht.
    destruct (TreeFacts.toTree_nodes_project root depth t Ht) as [n [Hn Hp]].
    split; [now exists n|].
    destruct Hp as [-> _].
    split; [apply NodesFacts.normalizeNodeId_no_dash
           | apply NodesFacts.normalizeNodeId_Trimmed].
  - intros Hd. rewrite TreeFacts.toTree_unfold.
    destruct (Z.ltb_spec 0 (depth - 1)); [lia | reflexivity].
Qed.

Lemma toTree_ids_normalized_witness :
  Nodes.toTree Nodes.sampleDocument (-3) =
  Nodes.mkTree (lit "0:0") (lit "Document") (lit "DOCUMENT") [].
Proof.
  exact (proj2 (toTree_ids_normalized Nodes.sampleDocument (-3)%Z)
           ltac:(discriminate)).
Defined.

(** ** Export scale *)

Module ExportFacts.
Import ExportCmd.

Lemma resolveExportScale_valid s retina :
  validScale (resolvedScale s retina) ->
  resolveExportScale s retina = Returns (resolvedScale s retina).
Proof.
  intros [q [E [Hlo Hhi]]]. unfold resolveExportScale.
  replace (match s with
           | Some s0 => s0
           | None => match retina with Some true => Fin 3 | _ => Fin 2 end
           end) with (resolvedScale s retina)
    by (destruct s, retina as [[|]|]; reflexivity).
  rewrite E. simpl. unfold JSNumber.gtb. simpl.
  apply JSNumberFacts.Qltb_ge in Hlo, Hhi. now rewrite Hlo, Hhi.
Qed.

Lemma resolveExportScale_invalid s retina :
  ~ validScale (resolvedScale s retina) ->
  resolveExportScale s retina = Throws (lit "Scale must be between 1 and 4.").
Proof.
  intros Hbad. unfold resolveExportScale.
  replace (match s with
           | Some s0 => s0
           | None => match retina with Some true => Fin 3 | _ => Fin 2 end
           end) with (resolvedScale s retina)
    by (destruct s, retina as [[|]|]; reflexivity).
  destruct (resolvedScale s retina) as [| | |q]; try reflexivity.
  simpl. unfold JSNumber.gtb. simpl.
  destruct (JSNumber.Qltb q 1) eqn:Hlo; [reflexivity|].
  destruct (JSNumber.Qltb 4 q) eqn:Hhi; [reflexivity|].
  exfalso. apply Hbad. exists q.
  apply JSNumberFacts.Qltb_ge in Hlo, Hhi. auto.
Qed.

End ExportFacts.

(** C7.  With neither a scale nor the retina flag the scale is 2; with the
    retina flag alone it is 3; an explicit scale between 1 and 4 is returned
    unchanged whatever the flag; and the call throws exactly when the
    resolved scale is not finite or lies outside 1 to 4, as for NaN, 0 and
    5. *)
Theorem resolveExportScale_range :
  ExportCmd.resolveExportScale None None = ExportCmd.Returns (Fin 2)
  /\ ExportCmd.resolveExportScale None (Some false) = ExportCmd.Returns (Fin 2)
  /\ ExportCmd.resolveExportScale None (Some true) = ExportCmd.Returns (Fin 3)
  /\ (forall q retina,
        (1 <= q)%Q -> (q <= 4)%Q ->
        ExportCmd.resolveExportScale (Some (Fin q)) retina = ExportCmd.Returns (Fin q))
  /\ (forall s retina,
        ExportCmd.throws (ExportCmd.resolveExportScale s retina) <->
        ~ ExportCmd.validScale (ExportCmd.resolvedScale s retina))
  /\ (forall s retina,
        ~ ExportCmd.throws (ExportCmd.resolveExportScale s retina) ->
        ExportCmd.resolveExportScale s retina =
        ExportCmd.Returns (ExportCmd.resolvedScale s retina))
  /\ (forall retina,
        ExportCmd.throws (ExportCmd.resolveExportScale (Some NaN) retina)
        /\ ExportCmd.throws (ExportCmd.resolveExportScale (Some (Fin 0)) retina)
        /\ ExportCmd.throws (ExportCmd.resolveExportScale (Some (Fin 5)) retina)
        /\ ExportCmd.throws (ExportCmd.resolveExportScale (Some PosInf) retina)).
Proof.
  assert (Hdec : forall s retina,
            ExportCmd.validScale (ExportCmd.resolvedScale s retina)
            \/ ~ ExportCmd.validScale (ExportCmd.resolvedScale s retina)).
  { intros s retina.
    destruct (ExportCmd.resolvedScale s retina) as [| | |q];
      try (right; intros [q' [E _]]; discriminate E).
    destruct (Qlt_le_dec q 1) as [Hlo|Hlo].
    { right. intros [q' [E [H1 _]]]. injection E as <-.
      exact (Qlt_not_le _ _ Hlo H1). }
    destruct (Qlt_le_dec 4 q) as [Hhi|Hhi].
    { right. intros [q' [E [_ H4]]]. injection E as <-.
      exact (Qlt_not_le _ _ Hhi H4). }
    left. now exists q. }
  repeat apply conj; try reflexivity.
  - intros q retina Hlo Hhi.
    apply (ExportFacts.resolveExportScale_valid (Some (Fin q)) retina).
    now exists q.
  - intros s retina. split.
    + intros Hthrow Hvalid.
      rewrite (ExportFacts.resolveExportScale_valid _ _ Hvalid) in Hthrow.
      exact Hthrow.
    + intros Hbad. now rewrite (ExportFacts.resolveExportScale_invalid _ _ Hbad).
  - intros s retina Hno. destruct (Hdec s retina) as [Hv|Hbad].
    + now apply ExportFacts.resolveExportScale_valid.
    + exfalso. apply Hno.
      now rewrite (ExportFacts.resolveExportScale_invalid _ _ Hbad).
  - intros retina. now repeat split.
Qed.

Lemma resolveExportScale_range_witness :
  ExportCmd.resolveExportScale (Some (Fin (3 # 2))) (Some true)
  = ExportCmd.Returns (Fin (3 # 2)).
Proof.
  apply (proj1 (proj2 (proj2 (proj2 resolveExportScale_range))));
    discriminate.
Defined.

(** ** Audit score *)

Module AuditFacts.
Import Audit.

Lemma max_total t :
  JSNumber.max (JSNumber.ofNat t) (Fin 1)
  = Fin (inject_Z (Z.of_nat (Nat.max t 1))).
Proof.
  destruct t as [|t]; [reflexivity|].
  replace (Nat.max (S t) 1) with (S t) by lia.
  unfold JSNumber.max, JSNumber.ofNat, JSNumber.ofZ, JSNumber.ltb.
  assert (E : JSNumber.Qltb (inject_Z (Z.of_nat (S t))) 1 = false).
  { apply JSNumberFacts.Qltb_ge. change 1%Q with (inject_Z 1).
    rewrite <- Zle_Qle. lia. }
  now rewrite E.
Qed.

(** The floating comparison [ratio < 0.1] is the integer comparison
    [10 * instances < max(total, 1)]. *)
Lemma ratio_below_tenth inst t :
  JSNumber.ltb
    (JSNumber.div (JSNumber.ofNat inst) (JSNumber.max (JSNumber.ofNat t) (Fin 1)))
    (Fin (1 # 10))
  = (10 * inst <? Nat.max t 1).
Proof.
  rewrite max_total. set (m := Nat.max t 1).
  assert (Hm : (1 <= m)%nat) by (unfold m; lia).
  unfold JSNumber.ofNat, JSNumber.ofZ, JSNumber.div.
  assert (Hpos : (0 < inject_Z (Z.of_nat m))%Q).
  { change 0%Q with (inject_Z 0). rewrite <- Zlt_Qlt. lia. }
  destruct (Qeq_bool (inject_Z (Z.of_nat m)) 0) eqn:E.
  { apply Qeq_bool_iff in E. rewrite E in Hpos. now apply Qlt_irrefl in Hpos. }
  simpl JSNumber.ltb.
  destruct (Nat.ltb_spec (10 * inst) m) as [Hlt|Hge].
  - apply JSNumberFacts.Qltb_lt. apply Qlt_shift_div_r; [exact Hpos|].
    unfold Qlt, Qmult. simpl. lia.
  - apply JSNumberFacts.Qltb_ge. apply Qle_shift_div_l; [exact Hpos|].
    unfold Qle, Qmult. simpl. lia.
Qed.

Section WithBuiltins.
Context `{Builtins}.

Lemma fst_deduct cond amount issue run :
  fst (deduct cond amount issue run) = (fst run - when cond amount)%Z.
Proof. unfold deduct, when. destruct cond; simpl; lia. Qed.

Lemma applyRules_score acc k :
  fst (applyRules acc k) =
  (100
   - when (20 <? List.length (colors acc))%nat 10
   - when (3 <? List.length (fonts acc))%nat 10
   - when (10 <? List.length (fontSizes acc))%nat 5
   - when ((10 * acc_componentInstances acc <? Nat.max (acc_totalNodes acc) 1)%nat
           && (50 <? acc_totalNodes acc)%nat) 10
   - when (10 <? List.length (unstyledNodes acc))%nat 5
   - when ((acc_components acc =? 0)%nat && (20 <? acc_totalNodes acc)%nat) 15
   - when ((k =? 0)%nat && (10 <? acc_totalNodes acc)%nat) 10)%Z.
Proof.
  unfold applyRules. rewrite !fst_deduct. unfold componentRatio.
  rewrite ratio_below_tenth. reflexivity.
Qed.

Lemma when_bounds cond amount : (0 <= amount -> 0 <= when cond amount <= amount)%Z.
Proof. unfold when. destruct cond; lia. Qed.

Lemma conclude_specified acc k :
  score (conclude acc k) = specifiedScore (statsOf acc) k.
Proof.
  unfold conclude, specifiedScore. simpl score. rewrite applyRules_score.
  reflexivity.
Qed.

Lemma conclude_range acc k : (35 <= score (conclude acc k) <= 100)%Z.
Proof.
  unfold conclude. simpl score. rewrite applyRules_score.
  repeat match goal with
  | |- context [when ?c ?a] =>
      let Hb := fresh "Hb" in
      pose proof (when_bounds c a ltac:(lia)) as Hb;
      generalize dependent (when c a); intros
  end.
  lia.
Qed.

Lemma conclude_colors_antitone acc cs k :
  List.length (colors acc) <= List.length cs ->
  (score (conclude (withColors acc cs) k) <= score (conclude acc k))%Z.
Proof.
  intros Hle. unfold conclude. simpl score. rewrite !applyRules_score.
  simpl.
  assert (Hc : (when (20 <? List.length (colors acc))%nat 10
                <= when (20 <? List.length cs)%nat 10)%Z).
  { unfold when.
    destruct (Nat.ltb_spec 20 (List.length (colors acc)));
      destruct (Nat.ltb_spec 20 (List.length cs)); lia. }
  lia.
Qed.

Lemma conclude_colors_beyond_threshold acc cs k :
  20 < List.length (colors acc) -> 20 < List.length cs ->
  score (conclude (withColors acc cs) k) = score (conclude acc k).
Proof.
  intros H1 H2. unfold conclude. simpl score. rewrite !applyRules_score.
  simpl. apply Nat.ltb_lt in H1, H2. now rewrite H1, H2.
Qed.

End WithBuiltins.

End AuditFacts.

(** C3.  The audit score is 100 less the listed deductions, each applied
    when its condition on the statistics holds (more than 20 colors: 10;
    more than 3 font families: 10; more than 10 font sizes: 5; instance
    ratio below 10% with more than 50 nodes: 10; more than 10 unstyled
    nodes: 5; no component with more than 20 nodes: 15; no shared style with
    more than 10 nodes: 10), clamped below at 0; it lies between 0 and 100;
    and of two subtrees whose statistics differ only in their colors, the
    one with at least as many colors never has the higher score, the two
    scores being equal once both are beyond 20 colors. *)
Theorem audit_score_deductions (B : Builtins) :
  forall root k,
    Audit.score (Audit.audit root k)
      = Audit.specifiedScore (Audit.stats (Audit.audit root k)) k
    /\ (0 <= Audit.score (Audit.audit root k) <= 100)%Z
    /\ (forall root' cs,
          Audit.traverseNodes Audit.visit root' Audit.accStart
            = Audit.withColors (Audit.traverseNodes Audit.visit root Audit.accStart) cs ->
          Audit.uniqueColors (Audit.stats (Audit.audit root k)) <= List.length cs ->
          (Audit.score (Audit.audit root' k) <= Audit.score (Audit.audit root k))%Z
          /\ (20 < Audit.uniqueColors (Audit.stats (Audit.audit root k)) ->
              Audit.score (Audit.audit root' k) = Audit.score (Audit.audit root k))).
Proof.
  intros root k. unfold Audit.audit.
  split; [apply AuditFacts.conclude_specified|].
  split.
  { pose proof (AuditFacts.conclude_range
                  (Audit.traverseNodes Audit.visit root Audit.accStart) k). lia. }
  intros root' cs -> Hle. simpl in Hle. split.
  - now apply AuditFacts.conclude_colors_antitone.
  - intros Hbeyond. simpl in Hbeyond.
    apply AuditFacts.conclude_colors_beyond_threshold; lia.
Qed.

Lemma audit_score_deductions_witness :
  (Audit.score (Audit.audit (H := integerBuiltins) Audit.redFrame 0)
   <= Audit.score (Audit.audit (H := integerBuiltins) Audit.bareFrame 0))%Z.
Proof.
  apply (proj2 (proj2 (audit_score_deductions integerBuiltins Audit.bareFrame 0))
           Audit.redFrame [lit "#ff0000"]).
  - reflexivity.
  - simpl. lia.
Defined.

(** ** Colors in the audit and in the diff *)

Module ColorFacts.

Lemma same_refl n : JSNumber.same n n.
Proof. destruct n; simpl; auto. apply Qeq_refl. Qed.

Lemma round_scaled_same k m n :
  JSNumber.same m n ->
  JSNumber.round (JSNumber.mul m (Fin k)) = JSNumber.round (JSNumber.mul n (Fin k)).
Proof.
  destruct m as [| | |p], n as [| | |q]; try (simpl; tauto).
  intros E. unfold JSNumber.same in E. unfold JSNumber.mul, JSNumber.round.
  do 2 f_equal. apply Qfloor_comp. now rewrite E.
Qed.

Lemma diff_toByteHex_same m n :
  JSNumber.same m n -> Diff.toByteHex m = Diff.toByteHex n.
Proof. intros E. unfold Diff.toByteHex. now rewrite (round_scaled_same _ m n E). Qed.

Lemma rgbaToHex_same r1 g1 b1 a1 r2 g2 b2 a2 :
  JSNumber.same r1 r2 -> JSNumber.same g1 g2 -> JSNumber.same b1 b2 ->
  Audit.rgbaToHex r1 g1 b1 a1 = Audit.rgbaToHex r2 g2 b2 a2.
Proof.
  intros Hr Hg Hb. unfold Audit.rgbaToHex.
  now rewrite (round_scaled_same _ _ _ Hr), (round_scaled_same _ _ _ Hg),
    (round_scaled_same _ _ _ Hb).
Qed.

Lemma padStart2_not_nil s : Styles.padStart2 s <> [].
Proof. destruct s as [|c [|d s']]; discriminate. Qed.

Lemma diff_toHex_suffix r g b a :
  Diff.toHex r g b a =
  (lit "#" ++ Diff.toByteHex r ++ Diff.toByteHex g ++ Diff.toByteHex b)
    ++ Diff.alphaSuffix a.
Proof.
  unfold Diff.toHex, Diff.alphaSuffix.
  destruct (JSNumber.ltb a (Fin 1)); [reflexivity | now rewrite List.app_nil_r].
Qed.

Lemma diff_toHex_eq_iff r1 g1 b1 a1 r2 g2 b2 a2 :
  JSNumber.same r1 r2 -> JSNumber.same g1 g2 -> JSNumber.same b1 b2 ->
  (Diff.toHex r1 g1 b1 a1 = Diff.toHex r2 g2 b2 a2
   <-> Diff.alphaSuffix a1 = Diff.alphaSuffix a2).
Proof.
  intros Hr Hg Hb. rewrite !diff_toHex_suffix.
  rewrite (diff_toByteHex_same _ _ Hr), (diff_toByteHex_same _ _ Hg),
    (diff_toByteHex_same _ _ Hb).
  split; [apply List.app_inv_head | now intros ->].
Qed.

Lemma alphaSuffix_opaque_differs a1 a2 :
  JSNumber.ltb a1 (Fin 1) = true -> JSNumber.ltb a2 (Fin 1) = false ->
  Diff.alphaSuffix a1 <> Diff.alphaSuffix a2.
Proof.
  unfold Diff.alphaSuffix. intros -> ->. apply padStart2_not_nil.
Qed.

Lemma has_snoc xs item : Diff.has (xs ++ [item]) item = true.
Proof.
  unfold Diff.has. rewrite List.existsb_app. simpl.
  now rewrite JSStringFacts.eqb_refl, orb_true_r.
Qed.

Lemma setAdd_has item xs : Diff.has (Diff.setAdd item xs) item = true.
Proof.
  unfold Diff.setAdd. destruct (Diff.has xs item) eqn:E; [exact E | apply has_snoc].
Qed.

Lemma setAdd_idem item xs :
  Diff.setAdd item (Diff.setAdd item xs) = Diff.setAdd item xs.
Proof. unfold Diff.setAdd at 1. now rewrite setAdd_has. Qed.

Lemma firstSolidFillColor_single fill c :
  Audit.isSolid fill = true -> color fill = Some c ->
  Diff.firstSolidFillColor (Diff.filledWith fill)
  = Some (Diff.toHex (r c) (g c) (b c) (Styles.fillAlpha fill c)).
Proof.
  intros Hs Hc. unfold Diff.firstSolidFillColor, Diff.filledWith.
  unfold Audit.isSolid in Hs. cbn [fills List.find].
  rewrite Hs, Hc. cbn [Styles.isSome andb]. now rewrite Hc.
Qed.

End ColorFacts.

(** C9 (as amended).  The audit's hex conversion leaves its alpha argument
    out of the string, so two solid fills whose red, green and blue
    components are equal count as one color in the audit, whatever their
    alpha or fill opacity.  The diff engine's conversion appends an alpha
    byte exactly when alpha is below 1, so the same two fills give distinct
    diff colors exactly when their effective alphas (the fill opacity when
    it is a number, otherwise the color's alpha, otherwise 1) give different
    suffixes; in particular when one is below 1 and the other is not. *)
Theorem audit_colors_ignore_alpha (B : Builtins) :
  forall f1 f2 c1 c2,
    Audit.isSolid f1 = true -> Audit.isSolid f2 = true ->
    color f1 = Some c1 -> color f2 = Some c2 ->
    JSNumber.same (r c1) (r c2) ->
    JSNumber.same (g c1) (g c2) ->
    JSNumber.same (b c1) (b c2) ->
    (forall a1 a2,
        Audit.rgbaToHex (r c1) (g c1) (b c1) a1 = Audit.rgbaToHex (r c2) (g c2) (b c2) a2)
    /\ (forall n k,
          fills n = Some [f1; f2] -> children n = None ->
          Audit.uniqueColors (Audit.stats (Audit.audit n k)) = 1)
    /\ (forall rr gg bb al,
          Diff.toHex rr gg bb al =
          Audit.rgbaToHex rr gg bb al ++ Diff.alphaSuffix al)
    /\ (Diff.firstSolidFillColor (Diff.filledWith f1)
          = Diff.firstSolidFillColor (Diff.filledWith f2)
        <-> Diff.alphaSuffix (Styles.fillAlpha f1 c1)
            = Diff.alphaSuffix (Styles.fillAlpha f2 c2))
    /\ (JSNumber.ltb (Styles.fillAlpha f1 c1) (Fin 1) = true ->
        JSNumber.ltb (Styles.fillAlpha f2 c2) (Fin 1) = false ->
        Diff.firstSolidFillColor (Diff.filledWith f1)
          <> Diff.firstSolidFillColor (Diff.filledWith f2)).
Proof.
  intros f1 f2 c1 c2 S1 S2 C1 C2 Hr Hg Hb.
  assert (Hiff :
    Diff.firstSolidFillColor (Diff.filledWith f1)
      = Diff.firstSolidFillColor (Diff.filledWith f2)
    <-> Diff.alphaSuffix (Styles.fillAlpha f1 c1)
        = Diff.alphaSuffix (Styles.fillAlpha f2 c2)).
  { rewrite (ColorFacts.firstSolidFillColor_single f1 c1 S1 C1),
      (ColorFacts.firstSolidFillColor_single f2 c2 S2 C2).
    rewrite <- (ColorFacts.diff_toHex_eq_iff _ _ _ _ _ _ _ _ Hr Hg Hb).
    split; [now intros [= ->] | now intros ->]. }
  repeat apply conj.
  - intros a1 a2. now apply ColorFacts.rgbaToHex_same.
  - intros n k Hf Hc. unfold Audit.audit.
    destruct n as [i nm ty ch fl st ef sy ss bb chs rc]; simpl in Hf, Hc; subst.
    cbn [Audit.traverseNodes children Audit.conclude Audit.stats Audit.statsOf
         Audit.uniqueColors Audit.visit Audit.colors fills Audit.accStart
         List.fold_left].
    unfold Audit.addFillColor. rewrite C1, C2, S1, S2.
    rewrite (ColorFacts.rgbaToHex_same (r c2) (g c2) (b c2) _ (r c1) (g c1) (b c1)
               (match a c1 with Some al => al | None => Fin 1 end)).
    + rewrite ColorFacts.setAdd_idem. reflexivity.
    + destruct (r c1), (r c2); simpl in *; try tauto. now symmetry.
    + destruct (g c1), (g c2); simpl in *; try tauto. now symmetry.
    + destruct (b c1), (b c2); simpl in *; try tauto. now symmetry.
  - intros rr gg bb al. apply ColorFacts.diff_toHex_suffix.
  - apply Hiff.
  - apply Hiff.
  - intros L1 L2 E. apply Hiff in E.
    exact (ColorFacts.alphaSuffix_opaque_differs _ _ L1 L2 E).
Qed.

Lemma audit_colors_ignore_alpha_witness :
  Diff.firstSolidFillColor (Diff.filledWith (Diff.redAt (1 # 2)))
  <> Diff.firstSolidFillColor (Diff.filledWith Audit.redFill).
Proof.
  refine (proj2 (proj2 (proj2 (proj2
    (audit_colors_ignore_alpha integerBuiltins
       (Diff.redAt (1 # 2)) Audit.redFill _ _
       eq_refl eq_refl eq_refl eq_refl _ _ _)))) eq_refl eq_refl);
    simpl; reflexivity.
Defined.

(** C9, as first stated, fails: two fills of the same red whose alphas are
    0.5 and 0.501 differ in alpha yet have the same diff color, since both
    alphas round to the byte 80. *)
Lemma diff_colors_coincide_for_close_alphas :
  ~ (forall f1 f2 c1 c2,
       Audit.isSolid f1 = true -> Audit.isSolid f2 = true ->
       color f1 = Some c1 -> color f2 = Some c2 ->
       JSNumber.same (r c1) (r c2) ->
       JSNumber.same (g c1) (g c2) ->
       JSNumber.same (b c1) (b c2) ->
       a c1 <> a c2 \/ opacity f1 <> opacity f2 ->
       Diff.firstSolidFillColor (Diff.filledWith f1)
       <> Diff.firstSolidFillColor (Diff.filledWith f2)).
Proof.
  intros claim.
  apply (claim (Diff.redAt (1 # 2)) (Diff.redAt (501 # 1000)) _ _
           eq_refl eq_refl eq_refl eq_refl);
    try (vm_compute; reflexivity).
  left. discriminate.
Qed.

(** ** The diff engine *)

Module DiffFacts.
Import Diff.

Lemma lexLeb_total s : forall t, lexLeb s t = true \/ lexLeb t s = true.
Proof.
  induction s as [|c s IH]; intros [|d t]; simpl; auto.
  destruct (N.ltb_spec c d), (N.ltb_spec d c); auto; lia.
Qed.

Lemma lexLeb_trans s : forall t u,
  lexLeb s t = true -> lexLeb t u = true -> lexLeb s u = true.
Proof.
  induction s as [|c s IH]; intros [|d t] [|e u]; simpl; auto; try discriminate.
  destruct (N.ltb_spec c d), (N.ltb_spec d c), (N.ltb_spec d e),
    (N.ltb_spec e d), (N.ltb_spec c e), (N.ltb_spec e c);
    try discriminate; try lia; auto.
  apply IH.
Qed.

Lemma lexLeb_antisym s : forall t,
  lexLeb s t = true -> lexLeb t s = true -> s = t.
Proof.
  induction s as [|c s IH]; intros [|d t]; simpl; auto; try discriminate.
  destruct (N.ltb_spec c d), (N.ltb_spec d c); try discriminate; try lia.
  intros H1 H2. f_equal; [lia | now apply IH].
Qed.

#[global] Instance lexLe_total : Total lexLe.
Proof. intros s t. apply lexLeb_total. Qed.

#[global] Instance lexLe_trans : Transitive lexLe.
Proof. intros s t u. apply lexLeb_trans. Qed.

Lemma sortStrings_sorted xs : StronglySorted lexLe (sortStrings xs).
Proof. apply StronglySorted_merge_sort; apply _. Qed.

Lemma sortStrings_In xs item : In item (sortStrings xs) <-> In item xs.
Proof.
  unfold sortStrings. rewrite <- !list_elem_of_In.
  now rewrite (merge_sort_Permutation lexLe xs).
Qed.

Lemma filter_sorted (f : jsstring -> bool) xs :
  StronglySorted lexLe xs -> StronglySorted lexLe (List.filter f xs).
Proof.
  induction 1 as [|item xs Hs IH Hall]; simpl; [constructor|].
  destruct (f item); [|exact IH].
  constructor; [exact IH|].
  rewrite List.Forall_forall in *. intros u Hu.
  apply List.filter_In in Hu as [Hu _]. now apply Hall.
Qed.

Lemma has_In xs item : has xs item = true <-> In item xs.
Proof.
  unfold has. rewrite List.existsb_exists. split.
  - intros [u [Hu E]]. apply JSStringFacts.eqb_eq in E. now subst.
  - intros Hin. exists item. split; [exact Hin | apply JSStringFacts.eqb_refl].
Qed.

Lemma filter_absent_In other xs item :
  In item (List.filter (fun u => negb (has other u)) xs)
  <-> In item xs /\ ~ In item other.
Proof.
  rewrite List.filter_In, negb_true_iff.
  pose proof (has_In other item) as Hhas.
  destruct (has other item); split; intros [H1 H2]; split; auto;
    try discriminate.
  - elim H2. now apply Hhas.
  - intros Hin. apply Hhas in Hin. discriminate.
Qed.

(** Whatever the visitor preserves holds after the whole traversal. *)
Lemma traverse_invariant {S : Type} (fn : FigmaNode -> S -> S) (P : S -> Prop) :
  (forall n st, P st -> P (fn n st)) ->
  forall n st, P st -> P (traverse fn n st).
Proof.
  intros Hstep n.
  induction n as [n Hc | n cs Hc IH] using FigmaNode_ind'; intros st Hst;
    destruct n as [i nm ty ch fl sk ef sy ss bb chs rc]; simpl in Hc; subst ch;
    simpl.
  - now apply Hstep.
  - match goal with |- P (List.fold_left _ _ ?start) =>
      assert (Hstart : P start) by now apply Hstep
    end.
    match goal with |- P (List.fold_left _ _ ?start) =>
      generalize dependent start
    end.
    induction IH as [|c rest Hc' _ IHrest]; simpl; intros start Hstart;
      [exact Hstart|].
    apply IHrest. now apply Hc'.
Qed.

Lemma setAdd_NoDup item xs : List.NoDup xs -> List.NoDup (setAdd item xs).
Proof.
  intros Hnd. unfold setAdd. destruct (has xs item) eqn:E; [exact Hnd|].
  apply List.NoDup_app; [exact Hnd | repeat constructor; intros [] |].
  intros u Hu [<- | []]. apply has_In in Hu. congruence.
Qed.

Lemma sortStrings_NoDup xs : List.NoDup xs -> List.NoDup (sortStrings xs).
Proof.
  unfold sortStrings. intros Hnd.
  apply NoDup_ListNoDup. rewrite (merge_sort_Permutation lexLe xs).
  now apply NoDup_ListNoDup.
Qed.

Section WithBuiltins.
Context `{Builtins}.

Lemma visit_NoDup item acc :
  List.NoDup (styleSet acc) /\ List.NoDup (fillSet acc) ->
  List.NoDup (styleSet (visit item acc)) /\ List.NoDup (fillSet (visit item acc)).
Proof.
  intros [H1 H2]. unfold visit; simpl. split.
  - destruct (styleSignature item) as [[|c sig]|]; auto using setAdd_NoDup.
  - destruct (firstSolidFillColor item) as [[|c fill]|]; auto using setAdd_NoDup.
Qed.

Lemma snapshot_sets n :
  (StronglySorted lexLe (textStyles (snapshot n)) /\ List.NoDup (textStyles (snapshot n)))
  /\ (StronglySorted lexLe (fillColors (snapshot n)) /\ List.NoDup (fillColors (snapshot n))).
Proof.
  unfold snapshot; simpl.
  pose proof (traverse_invariant visit
    (fun acc => List.NoDup (styleSet acc) /\ List.NoDup (fillSet acc))
    visit_NoDup n {| textParts := []; styleSet := []; fillSet := [] |}
    (conj (List.NoDup_nil _) (List.NoDup_nil _))) as [H1 H2].
  repeat split; auto using sortStrings_sorted, sortStrings_NoDup.
Qed.

End WithBuiltins.

End DiffFacts.

(** C4.  For any two snapshots, what a diff of A against B reports as added
    is what the diff of B against A reports as removed, and conversely, for
    style signatures and for fill colors.  For the snapshots of any two
    nodes, "added" holds exactly the members of B's set absent from A's,
    "removed" exactly the members of A's set absent from B's, and every one
    of these lists is in lexicographic order. *)
Theorem diff_sets_mirrored (B : Builtins) :
  (forall sa sb : Diff.NodeSnapshot,
      let ab := Diff.buildDiffStyles sa sb in
      let ba := Diff.buildDiffStyles sb sa in
      Diff.textStylesAddedInB ab = Diff.textStylesRemovedFromA ba
      /\ Diff.textStylesRemovedFromA ab = Diff.textStylesAddedInB ba
      /\ Diff.fillColorsAddedInB ab = Diff.fillColorsRemovedFromA ba
      /\ Diff.fillColorsRemovedFromA ab = Diff.fillColorsAddedInB ba)
  /\ (forall nodeA nodeB,
        let sa := Diff.snapshot nodeA in
        let sb := Diff.snapshot nodeB in
        let ab := Diff.buildDiffStyles sa sb in
        (forall item,
            In item (Diff.textStylesAddedInB ab)
            <-> In item (Diff.textStyles sb) /\ ~ In item (Diff.textStyles sa))
        /\ (forall item,
              In item (Diff.textStylesRemovedFromA ab)
              <-> In item (Diff.textStyles sa) /\ ~ In item (Diff.textStyles sb))
        /\ (forall item,
              In item (Diff.fillColorsAddedInB ab)
              <-> In item (Diff.fillColors sb) /\ ~ In item (Diff.fillColors sa))
        /\ (forall item,
              In item (Diff.fillColorsRemovedFromA ab)
              <-> In item (Diff.fillColors sa) /\ ~ In item (Diff.fillColors sb))
        /\ Forall (StronglySorted Diff.lexLe)
             [ Diff.textStyles sa; Diff.fillColors sa;
               Diff.textStylesAddedInB ab; Diff.textStylesRemovedFromA ab;
               Diff.fillColorsAddedInB ab; Diff.fillColorsRemovedFromA ab ]).
Proof.
  split; [intros sa sb; repeat split|].
  intros nodeA nodeB sa sb ab.
  destruct (DiffFacts.snapshot_sets nodeA) as [[SA1 _] [SA2 _]].
  destruct (DiffFacts.snapshot_sets nodeB) as [[SB1 _] [SB2 _]].
  repeat apply conj; try (intros item; apply DiffFacts.filter_absent_In).
  repeat constructor; try assumption;
    unfold ab, Diff.buildDiffStyles, Diff.arrayDiff; simpl;
    now apply DiffFacts.filter_sorted.
Qed.

(** ** The style deriver *)

Module StylesFacts.
Import Styles.

Section WithBuiltins.
Context `{Builtins}.

Lemma lookup_setWhen_ne cond key value m k :
  key <> k -> setWhen cond key value m !! k = m !! k.
Proof. intros Hne. unfold setWhen. destruct cond; [now apply lookup_insert_ne | reflexivity]. Qed.

Lemma lookup_setSome_ne key value m k :
  key <> k -> setSome key value m !! k = m !! k.
Proof. apply lookup_setWhen_ne. Qed.

Lemma lookup_setTypo_ne n key cssKey render m k :
  cssKey <> k -> setTypo n key cssKey render m !! k = m !! k.
Proof.
  intros Hne. unfold setTypo.
  destruct (styleField n key); [now apply lookup_setWhen_ne | reflexivity].
Qed.

Lemma lookup_setTypo_eq n key cssKey render m :
  m !! cssKey = None ->
  setTypo n key cssKey render m !! cssKey = emitted n key render.
Proof.
  intros Hm. unfold setTypo, emitted, setWhen.
  destruct (styleField n key) as [v|]; [|exact Hm].
  destruct (truthy v); [apply lookup_insert_eq | exact Hm].
Qed.

End WithBuiltins.

(** Looking a key up through the assignments made to other keys. *)
Ltac skip_other_keys :=
  repeat first
    [ rewrite lookup_setWhen_ne by discriminate
    | rewrite lookup_setTypo_ne by discriminate
    | rewrite lookup_insert_ne by discriminate
    | match goal with
      | |- (match ?o with Some _ => _ | None => _ end) !! _ = _ => destruct o
      | |- (match ?j with
            | JNull => _ | JBool _ => _ | JNum _ => _
            | JStr _ => _ | JArr _ => _ | JObj _ => _
            end) !! _ = _ => destruct j
      | |- (if ?c then _ else _) !! _ = _ => destruct c
      end ].

Ltac typography_lookup :=
  unfold buildStyleDetails; cbn [css]; unfold setSome;
  skip_other_keys; apply lookup_setTypo_eq; skip_other_keys;
  apply lookup_empty.

Section Typography.
Context `{Builtins}.

Lemma css_font_family n :
  css (buildStyleDetails n) !! "font-family" = emitted n "fontFamily" ToString.
Proof. typography_lookup. Qed.

Lemma css_font_size n :
  css (buildStyleDetails n) !! "font-size"
  = emitted n "fontSize" (fun v => ToString v ++ lit "px").
Proof. typography_lookup. Qed.

Lemma css_font_weight n :
  css (buildStyleDetails n) !! "font-weight" = emitted n "fontWeight" ToString.
Proof. typography_lookup. Qed.

Lemma css_line_height n :
  css (buildStyleDetails n) !! "line-height"
  = emitted n "lineHeightPx" (fun v => ToString v ++ lit "px").
Proof. typography_lookup. Qed.

Lemma css_letter_spacing n :
  css (buildStyleDetails n) !! "letter-spacing"
  = emitted n "letterSpacing" (fun v => ToString v ++ lit "px").
Proof. typography_lookup. Qed.

Lemma css_text_align n :
  css (buildStyleDetails n) !! "text-align"
  = emitted n "textAlignHorizontal" (fun v => toLowerCase (ToString v)).
Proof. typography_lookup. Qed.

End Typography.

End StylesFacts.

(** C8 (as amended).  For each typography field (font family, font size,
    font weight, line height, letter spacing, horizontal text alignment):
    when the field is present in the style block with a truthy value, the
    CSS map holds its rendering, which is [String(value)] for family and
    weight, [String(value)] followed by [px] for size, line height and
    letter spacing, and the lower-cased [String(value)] for the alignment;
    when the field is absent or falsy (0, NaN, the empty string, null,
    false), the CSS map has no such property. *)
Theorem css_typography_when_truthy (B : Builtins) :
  forall n key cssKey render,
    In (key, cssKey, render) Styles.typography ->
    (forall v,
        Styles.styleField n key = Some v -> truthy v = true ->
        Styles.css (Styles.buildStyleDetails n) !! cssKey = Some (render v))
    /\ (truthyOpt (Styles.styleField n key) = false ->
        Styles.css (Styles.buildStyleDetails n) !! cssKey = None).
Proof.
  intros n key cssKey render Hin.
  assert (E : Styles.css (Styles.buildStyleDetails n) !! cssKey
              = Styles.emitted n key render).
  { simpl in Hin.
    repeat destruct Hin as [Hin | Hin]; try contradiction;
      inversion Hin; subst; clear Hin.
    - apply StylesFacts.css_font_family.
    - apply StylesFacts.css_font_size.
    - apply StylesFacts.css_font_weight.
    - apply StylesFacts.css_line_height.
    - apply StylesFacts.css_letter_spacing.
    - apply StylesFacts.css_text_align. }
  rewrite E. unfold Styles.emitted, truthyOpt. split.
  - intros v -> ->. reflexivity.
  - destruct (Styles.styleField n key) as [v|]; [|reflexivity].
    now intros ->.
Qed.

Lemma css_typography_when_truthy_witness :
  Styles.css (Styles.buildStyleDetails (H := integerBuiltins) Styles.styledText)
    !! "font-size" = Some (lit "14px")
  /\ Styles.css (Styles.buildStyleDetails (H := integerBuiltins) Styles.styledText)
       !! "text-align" = Some (lit "left")
  /\ Styles.css (Styles.buildStyleDetails (H := integerBuiltins) Styles.zeroSpacingText)
       !! "letter-spacing" = None.
Proof.
  repeat apply conj.
  - apply (proj1 (css_typography_when_truthy integerBuiltins Styles.styledText
             "fontSize" "font-size" (fun v => ToString v ++ lit "px")
             (or_intror (or_introl eq_refl))) (JNum (Fin 14)));
      reflexivity.
  - apply (proj1 (css_typography_when_truthy integerBuiltins Styles.styledText
             "textAlignHorizontal" "text-align" (fun v => toLowerCase (ToString v))
             (or_intror (or_intror (or_intror (or_intror (or_intror
                (or_introl eq_refl))))))) (JStr (lit "LEFT")));
      reflexivity.
  - apply (proj2 (css_typography_when_truthy integerBuiltins Styles.zeroSpacingText
             "letterSpacing" "letter-spacing" (fun v => ToString v ++ lit "px")
             (or_intror (or_intror (or_intror (or_intror (or_introl eq_refl)))))));
      reflexivity.
Defined.

(** C8, as first stated, fails: a letter spacing of 0 is present in the
    style block and yet no [letter-spacing] property is emitted. *)
Lemma css_zero_letter_spacing_not_emitted :
  ~ (forall (B : Builtins) n v,
       Styles.styleField n "letterSpacing" = Some v ->
       Styles.css (Styles.buildStyleDetails n) !! "letter-spacing"
       = Some (ToString v ++ lit "px")).
Proof.
  intros claim.
  specialize (claim integerBuiltins Styles.zeroSpacingText (JNum (Fin 0)) eq_refl).
  vm_compute in claim. discriminate claim.
Qed.

(** ** Padding inference *)

Module PaddingFacts.
Import Styles.






Lemma fold_minsStep pb bs : forall m,
  List.fold_left (minsStep pb) bs m =
  {| minTop := List.fold_left JSNumber.min (List.map (gapTop pb) bs) (minTop m);
     minRight := List.fold_left JSNumber.min (List.map (gapRight pb) bs) (minRight m);
     minBottom := List.fold_left JSNumber.min (List.map (gapBottom pb) bs) (minBottom m);
     minLeft := List.fold_left JSNumber.min (List.map (gapLeft pb) bs) (minLeft m) |}.
Proof.
  induction bs as [|cb bs IH]; intros m; simpl; [now destruct m|].
  now rewrite IH.
Qed.

Lemma badGap_false_iff v : badGap v = false <-> nonNegative v.
Proof.
  unfold badGap, nonNegative. split.
  - destruct v as [| | |q]; simpl; try discriminate.
    intros Hq. exists q. split; [reflexivity | now apply JSNumberFacts.Qltb_ge].
  - intros [q [-> Hq]]. simpl. now apply JSNumberFacts.Qltb_ge.
Qed.



End PaddingFacts.

Module PaddingCases.
Import Styles.

Lemma inferPadding_unfold n :
  inferPaddingFromChildren n =
  let e_top := toNumber (rec n !! "paddingTop") in
  let e_right := toNumber (rec n !! "paddingRight") in
  let e_bottom := toNumber (rec n !! "paddingBottom") in
  let e_left := toNumber (rec n !! "paddingLeft") in
  if isSome e_top || isSome e_right || isSome e_bottom || isSome e_left then
    {| top := e_top; right := e_right; bottom := e_bottom; left := e_left;
       source := explicit |}
  else
    match absoluteBoundingBox n with
    | None => inferPaddingNone
    | Some pb =>
        match boundedChildren (childList n) with
        | [] => inferPaddingNone
        | bs =>
            let mT := minOver (List.map (gapTop pb) bs) in
            let mR := minOver (List.map (gapRight pb) bs) in
            let mB := minOver (List.map (gapBottom pb) bs) in
            let mL := minOver (List.map (gapLeft pb) bs) in
            if badGap mT || badGap mR || badGap mB || badGap mL then inferPaddingNone
            else {| top := Some (round2 mT); right := Some (round2 mR);
                    bottom := Some (round2 mB); left := Some (round2 mL);
                    source := inferred |}
        end
    end.
Proof.
  unfold inferPaddingFromChildren. cbv zeta.
  destruct (isSome (toNumber (rec n !! "paddingTop"))
            || isSome (toNumber (rec n !! "paddingRight"))
            || isSome (toNumber (rec n !! "paddingBottom"))
            || isSome (toNumber (rec n !! "paddingLeft"))); [reflexivity|].
  unfold childList.
  destruct (absoluteBoundingBox n) as [pb|]; [|reflexivity].
  destruct (children n) as [[|c cs]|]; try reflexivity.
  destruct (boundedChildren (c :: cs)) as [|b0 bs]; [reflexivity|].
  rewrite PaddingFacts.fold_minsStep. unfold minOver.
  cbn [minTop minRight minBottom minLeft minsStart List.existsb].
  now rewrite orb_false_r, !orb_assoc.
Qed.

Lemma all_nonNegative_iff mT mR mB mL :
  badGap mT || badGap mR || badGap mB || badGap mL = false
  <-> nonNegative mT /\ nonNegative mR /\ nonNegative mB /\ nonNegative mL.
Proof.
  rewrite !orb_false_iff, !PaddingFacts.badGap_false_iff. tauto.
Qed.

End PaddingCases.



(** ** The repository's own tests, evaluated on the model *)

Example test_explicit_padding_css :
  Styles.css (Styles.buildStyleDetails (H := integerBuiltins) Styles.explicitCard)
    !! "padding" = Some (lit "12px 16px 12px 16px").
Proof. vm_compute. reflexivity. Qed.

Example test_inferred_padding_css :
  Styles.css (Styles.buildStyleDetails (H := integerBuiltins) Styles.inferredCard)
    !! "padding" = Some (lit "20px 10px 20px 10px")
  /\ Styles.source
       (Styles.padding
          (Styles.layout
             (Styles.buildStyleDetails (H := integerBuiltins) Styles.inferredCard)))
     = Styles.inferred.
Proof. split; vm_compute; reflexivity. Qed.

Example test_sort_is_by_code_unit :
  Diff.sortStrings [lit "b"; lit "a|10"; lit "B"; lit "a"]
  = [lit "B"; lit "a"; lit "a|10"; lit "b"].
Proof. vm_compute. reflexivity. Qed.

Example test_toHex :
  Diff.toHex (Fin 1) (Fin (1 # 2)) (Fin 0) (Fin 1) = lit "#ff8000"
  /\ Diff.toHex (Fin 1) (Fin (1 # 2)) (Fin 0) (Fin (1 # 5)) = lit "#ff800033"
  /\ Audit.rgbaToHex (Fin 1) (Fin (1 # 2)) (Fin 0) (Fin (1 # 5)) = lit "#ff8000".
Proof. repeat split; vm_compute; reflexivity. Qed.

Example test_audit_sample :
  Audit.score (Audit.audit (H := integerBuiltins) Nodes.sampleDocument 0) = 100%Z
  /\ Audit.totalNodes
       (Audit.stats (Audit.audit (H := integerBuiltins) Nodes.sampleDocument 0)) = 4.
Proof. split; vm_compute; reflexivity. Qed.

(** * Further properties of the code *)

(** ** Identifiers and identifier lists *)

Module IdFacts.
Import Nodes NodeIndex.

Lemma trimEnd_fixed s : headNotWs (List.rev s) -> trimEnd s = s.
Proof.
  induction s as [|c r IH]; simpl; [reflexivity|].
  intros Hh. destruct r as [|d r'].
  - simpl in *. now rewrite Hh.
  - rewrite IH; [reflexivity|].
    simpl in *. destruct (List.rev r' ++ [d]) eqn:E; [|exact Hh].
    now destruct (List.rev r').
Qed.

Lemma Trimmed_trim s : Trimmed s -> trim s = s.
Proof.
  intros [H1 H2]. unfold trim.
  rewrite JSStringFacts.trimStart_fixed by exact H1. now apply trimEnd_fixed.
Qed.

Lemma In_trimStart c s : In c (trimStart s) -> In c s.
Proof.
  induction s as [|d r IH]; simpl; [tauto|].
  destruct (isWhiteSpace d); simpl; tauto.
Qed.

Lemma In_trimEnd c s : In c (trimEnd s) -> In c s.
Proof.
  induction s as [|d r IH]; simpl; [tauto|].
  destruct (trimEnd r) as [|e r'].
  - destruct (isWhiteSpace d); simpl; tauto.
  - simpl in *. tauto.
Qed.

Lemma In_normalize c s :
  c <> COLON -> In c (normalizeNodeId s) -> In c s.
Proof.
  intros Hc Hin. unfold normalizeNodeId, replaceDashes in Hin.
  apply List.in_map_iff in Hin as [d [E Hd]].
  apply In_trimEnd, In_trimStart in Hd.
  destruct (N.eqb_spec d DASH); [congruence | now subst].
Qed.

Lemma splitOn_not_nil sep s : splitOn sep s <> [].
Proof.
  destruct s as [|c r]; simpl; [discriminate|].
  destruct (c =? sep)%N; [discriminate|].
  destruct (splitOn sep r); discriminate.
Qed.

Lemma splitOn_no_sep sep s :
  Forall (fun part => ~ In sep part) (splitOn sep s).
Proof.
  induction s as [|c r IH]; simpl.
  - constructor; [intros [] | constructor].
  - destruct (N.eqb_spec c sep) as [->|Hne].
    + constructor; [intros [] | exact IH].
    + destruct (splitOn sep r) as [|part parts].
      * constructor; [|constructor]. intros [E | []]. congruence.
      * inversion IH as [|? ? Hp Hps]; subst.
        constructor; [|exact Hps]. intros [E | Hin]; [congruence | tauto].
Qed.

Lemma splitOn_single sep part :
  ~ In sep part -> splitOn sep part = [part].
Proof.
  induction part as [|c r IH]; simpl; [reflexivity|].
  intros Hno. destruct (N.eqb_spec c sep) as [->|Hne]; [tauto|].
  rewrite IH; [reflexivity | tauto].
Qed.

Lemma splitOn_app sep part s :
  ~ In sep part -> splitOn sep (part ++ sep :: s) = part :: splitOn sep s.
Proof.
  induction part as [|c r IH]; simpl.
  - now rewrite N.eqb_refl.
  - intros Hno. destruct (N.eqb_spec c sep) as [->|Hne]; [tauto|].
    rewrite IH; [reflexivity | tauto].
Qed.

Lemma splitOn_join sep parts :
  parts <> [] -> Forall (fun part => ~ In sep part) parts ->
  splitOn sep (join [sep] parts) = parts.
Proof.
  intros Hne Hall.
  induction Hall as [|part rest Hp Hrest IH]; [now elim Hne|].
  destruct rest as [|q rest'].
  - simpl. now apply splitOn_single.
  - change (join [sep] (part :: q :: rest'))
      with (part ++ sep :: join [sep] (q :: rest')).
    rewrite splitOn_app by exact Hp. now rewrite IH.
Qed.

Lemma filter_all {A} (f : A -> bool) l :
  Forall (fun v => f v = true) l -> List.filter f l = l.
Proof. induction 1 as [|v l Hv _ IH]; simpl; [reflexivity|]. now rewrite Hv, IH. Qed.

Lemma map_fixed {A} (f : A -> A) l :
  Forall (fun v => f v = v) l -> List.map f l = l.
Proof. induction 1 as [|v l Hv _ IH]; simpl; [reflexivity|]. now rewrite Hv, IH. Qed.

Lemma parseNodeIdsCsv_members value :
  Forall (fun i => i <> [] /\ normalizeNodeId i = i /\ ~ In COMMA i)
    (parseNodeIdsCsv value).
Proof.
  unfold parseNodeIdsCsv. apply List.Forall_forall. intros i Hi.
  apply List.filter_In in Hi as [Hi Hne].
  apply List.in_map_iff in Hi as [part [<- Hpart]].
  split; [now destruct (normalizeNodeId part)|].
  split; [apply NodesFacts.normalizeNodeId_idem|].
  intros Hc. apply In_normalize in Hc; [|discriminate].
  pose proof (splitOn_no_sep COMMA value) as Hall.
  rewrite List.Forall_forall in Hall. exact (Hall part Hpart Hc).
Qed.

End IdFacts.

(** A string is left unchanged by the normalization exactly when it has no
    dash and no whitespace at either end. *)
Theorem normalizeNodeId_fixed_iff :
  forall s,
    Nodes.normalizeNodeId s = s <-> ~ In DASH s /\ Trimmed s.
Proof.
  intros s. split.
  - intros E. rewrite <- E.
    split; [apply NodesFacts.normalizeNodeId_no_dash
           | apply NodesFacts.normalizeNodeId_Trimmed].
  - intros [Hd Ht]. unfold Nodes.normalizeNodeId.
    rewrite IdFacts.Trimmed_trim by exact Ht.
    now apply JSStringFacts.replaceDashes_fixed.
Qed.

(** Every identifier of a parsed list is non-empty, already normalized and
    free of commas; writing the list back with commas and parsing it again
    gives the same list. *)
Theorem parseNodeIdsCsv_round_trip :
  forall value,
    Forall (fun i => i <> [] /\ Nodes.normalizeNodeId i = i /\ ~ In NodeIndex.COMMA i)
      (NodeIndex.parseNodeIdsCsv value)
    /\ NodeIndex.parseNodeIdsCsv
         (join [NodeIndex.COMMA] (NodeIndex.parseNodeIdsCsv value))
       = NodeIndex.parseNodeIdsCsv value.
Proof.
  intros value.
  pose proof (IdFacts.parseNodeIdsCsv_members value) as Hall.
  split; [exact Hall|].
  destruct (NodeIndex.parseNodeIdsCsv value) as [|i rest] eqn:E; [reflexivity|].
  unfold NodeIndex.parseNodeIdsCsv at 1.
  rewrite IdFacts.splitOn_join.
  - rewrite IdFacts.map_fixed.
    + apply IdFacts.filter_all.
      eapply List.Forall_impl; [|exact Hall].
      intros j [Hj _]. now destruct j.
    + eapply List.Forall_impl; [|exact Hall]. now intros j [_ [Hj _]].
  - discriminate.
  - eapply List.Forall_impl; [|exact Hall]. now intros j [_ [_ Hj]].
Qed.

Example test_parseNodeIdsCsv :
  NodeIndex.parseNodeIdsCsv (lit "1-2, 3:4,5-6") = [lit "1:2"; lit "3:4"; lit "5:6"]
  /\ NodeIndex.parseNodeIdsCsv (lit " , ,") = [].
Proof. split; reflexivity. Qed.

(** ** Paths, the parent map and pages *)

Module IndexFacts.
Import Nodes NodeIndex.

Lemma preorderFrom_chain n :
  forall anc0 anc m,
    In (anc, m) (preorderFrom anc0 n) ->
    exists path, anc ++ [m] = anc0 ++ n :: path /\ linked (n :: path).
Proof.
  induction n as [n Hc | n cs Hc IH] using FigmaNode_ind'; intros anc0 anc m Hin;
    destruct n as [i nm ty ch fl sk ef sy ss bb chs rc]; simpl in Hc; subst ch.
  - simpl in Hin. destruct Hin as [[= <- <-] | []].
    exists []. now split.
  - set (n := mkNode i nm ty (Some cs) fl sk ef sy ss bb chs rc) in *.
    change (preorderFrom anc0 n)
      with ((anc0, n) :: List.flat_map (preorderFrom (anc0 ++ [n])) cs) in Hin.
    destruct Hin as [[= <- <-] | Hin]; [exists []; now split|].
    apply List.in_flat_map in Hin as [c [Hc Hin]].
    rewrite List.Forall_forall in IH.
    destruct (IH c Hc _ _ _ Hin) as [path [E Hl]].
    exists (c :: path). split.
    + now rewrite E, <- List.app_assoc.
    + split; [exact Hc | exact Hl].
Qed.

Lemma find_none_iff {A} (f : A -> bool) l :
  List.find f l = None <-> forall v, In v l -> f v = false.
Proof.
  split; [apply List.find_none|].
  induction l as [|v l IH]; simpl; [reflexivity|].
  intros Hall. rewrite (Hall v (or_introl eq_refl)). apply IH.
  intros u Hu. apply Hall. now right.
Qed.

Lemma walkParents_fold n :
  forall anc m,
    walkParents n (option_map normalizedId (lastOf anc)) m
    = List.fold_left insertEntry (preorderFrom anc n) m.
Proof.
  induction n as [n Hc | n cs Hc IH] using FigmaNode_ind'; intros anc m;
    destruct n as [i nm ty ch fl sk ef sy ss bb chs rc]; simpl in Hc; subst ch.
  - reflexivity.
  - set (n := mkNode i nm ty (Some cs) fl sk ef sy ss bb chs rc) in *.
    change (walkParents n (option_map normalizedId (lastOf anc)) m) with
      (List.fold_left
         (fun m' child => walkParents child (Some (normalizedId n)) m') cs
         (insertEntry m (anc, n))).
    change (preorderFrom anc n)
      with ((anc, n) :: List.flat_map (preorderFrom (anc ++ [n])) cs).
    simpl List.fold_left.
    assert (Hpar : Some (normalizedId n)
                   = option_map normalizedId (lastOf (anc ++ [n])))
      by now rewrite PathFacts.lastOf_snoc.
    rewrite Hpar. generalize (anc ++ [n]) (insertEntry m (anc, n)).
    clearbody n. clear Hpar. intros chain.
    induction IH as [|c rest Hc' _ IHrest]; intros start; simpl; [reflexivity|].
    now rewrite List.fold_left_app, Hc', IHrest.
Qed.

Lemma lookup_fold_insertEntry k l :
  forall m,
    List.fold_left insertEntry l m !! k =
    match List.find (matches k) (List.rev l) with
    | Some p => Some (parentIdOf p)
    | None => m !! k
    end.
Proof.
  induction l as [|p l IH]; intros m; simpl; [reflexivity|].
  rewrite IH, PathFacts.find_app. simpl.
  destruct (List.find (matches k) (List.rev l)); [reflexivity|].
  unfold insertEntry, matches, normalizedId.
  destruct (JSString.eqb (normalizeNodeId (id (snd p))) k) eqn:E.
  - apply JSStringFacts.eqb_eq in E. subst k. apply lookup_insert_eq.
  - apply lookup_insert_ne. intros E'. subst k.
    now rewrite JSStringFacts.eqb_refl in E.
Qed.

Lemma find_rev_unique k l :
  List.NoDup (List.map (fun p => normalizedId (snd p)) l) ->
  List.find (matches k) (List.rev l) = List.find (matches k) l.
Proof.
  induction l as [|p l IH]; simpl; [reflexivity|].
  intros Hnd. inversion Hnd as [|? ? Hnotin Hnd']; subst.
  rewrite PathFacts.find_app, (IH Hnd'). simpl.
  destruct (matches k p) eqn:E; [|now destruct (List.find (matches k) l)].
  destruct (List.find (matches k) l) as [q|] eqn:F; [|reflexivity].
  exfalso. apply Hnotin.
  apply List.find_some in F as [Hq Hm].
  unfold matches in E, Hm.
  apply JSStringFacts.eqb_eq in E, Hm.
  apply List.in_map_iff. exists q. split; [|exact Hq].
  unfold normalizedId. congruence.
Qed.

Lemma buildParentMap_lookup root key :
  buildParentMap root !! key
  = option_map parentIdOf (List.find (matches key) (List.rev (preorder root))).
Proof.
  unfold buildParentMap.
  change (@None jsstring) with (option_map normalizedId (lastOf [])).
  rewrite walkParents_fold, lookup_fold_insertEntry.
  fold (preorder root).
  now destruct (List.find (matches key) (List.rev (preorder root))).
Qed.

Lemma startsWith_refl s : startsWith s s = true.
Proof. induction s as [|c s IH]; simpl; [reflexivity|]. now rewrite N.eqb_refl. Qed.

Lemma includes_refl s : includes s s = true.
Proof. destruct s; simpl; [reflexivity|]. now rewrite N.eqb_refl, startsWith_refl. Qed.

Lemma fold_max_bound {A} (f : A -> nat) bound l :
  Forall (fun c => f c <= bound) l ->
  List.fold_right (fun c acc => Nat.max (f c) acc) 0 l <= bound.
Proof. induction 1 as [|c l Hc _ IH]; simpl; lia. Qed.

Lemma fold_max_member {A} (f : A -> nat) l c :
  In c l -> f c <= List.fold_right (fun c acc => Nat.max (f c) acc) 0 l.
Proof.
  induction l as [|d l IH]; simpl; [tauto|].
  intros [-> | Hin]; [lia|]. specialize (IH Hin). lia.
Qed.

Lemma nodeHeight_unfold n :
  nodeHeight n
  = S (List.fold_right (fun c acc => Nat.max (nodeHeight c) acc) 0 (childList n)).
Proof.
  destruct n as [i nm ty ch fl sk ef sy ss bb chs rc]. now destruct ch.
Qed.

Lemma treeHeight_unfold t :
  treeHeight t
  = S (List.fold_right (fun c acc => Nat.max (treeHeight c) acc) 0 (tree_children t)).
Proof. now destruct t. Qed.

Lemma nodeHeight_pos n : 1 <= nodeHeight n.
Proof. rewrite nodeHeight_unfold. lia. Qed.

Lemma treeHeight_toTree n :
  forall depth,
    (Z.of_nat (treeHeight (toTree n depth)) <= Z.max 1 depth)%Z
    /\ treeHeight (toTree n depth) <= nodeHeight n.
Proof.
  induction n as [n Hc | n cs Hc IH] using FigmaNode_ind'; intros depth;
    rewrite treeHeight_unfold, TreeFacts.toTree_unfold, nodeHeight_unfold;
    cbn [tree_children]; unfold childList; rewrite Hc.
  - destruct (0 <? depth - 1)%Z; simpl; lia.
  - destruct (Z.ltb_spec 0 (depth - 1)); [|simpl; lia].
    rewrite List.Forall_forall in IH.
    split.
    + assert (Hb : List.fold_right
                (fun c acc => Nat.max (treeHeight c) acc) 0
                (List.map (fun child => toTree child (depth - 1)) cs)
              <= Z.to_nat (depth - 1)).
      { apply fold_max_bound. apply List.Forall_forall. intros t Ht.
        apply List.in_map_iff in Ht as [c [<- Hin]].
        destruct (IH c Hin (depth - 1)%Z) as [Hz _]. lia. }
      lia.
    + apply le_n_S.
      assert (Hall : forall t,
                 In t (List.map (fun child => toTree child (depth - 1)) cs) ->
                 treeHeight t
                 <= List.fold_right (fun c acc => Nat.max (nodeHeight c) acc) 0 cs).
      { intros t Ht. apply List.in_map_iff in Ht as [c [<- Hin]].
        destruct (IH c Hin (depth - 1)%Z) as [_ Hh].
        pose proof (fold_max_member nodeHeight cs c Hin). lia. }
      apply fold_max_bound. now apply List.Forall_forall.
Qed.

Lemma toTree_complete n :
  forall depth,
    (Z.of_nat (nodeHeight n) <= depth)%Z ->
    List.map shownOfTree (treeNodes (toTree n depth)) = List.map shown (nodesOf n).
Proof.
  induction n as [n Hc | n cs Hc IH] using FigmaNode_ind'; intros depth Hd;
    rewrite TreeFacts.treeNodes_unfold, TreeFacts.toTree_unfold,
      TreeFacts.nodesOf_unfold;
    rewrite nodeHeight_unfold in Hd;
    cbn [tree_children]; unfold childList in *; rewrite Hc in *.
  - now destruct (0 <? depth - 1)%Z.
  - assert (Hgen : forall d',
               Forall (fun c => (Z.of_nat (nodeHeight c) <= d')%Z) cs ->
               List.map shownOfTree
                 (List.flat_map treeNodes
                    (List.map (fun child => toTree child d') cs))
               = List.map shown (List.flat_map nodesOf cs)).
    { intros d' Hall. clear Hd Hc.
      induction IH as [|c rest Hc' _ IHrest]; [reflexivity|].
      inversion Hall as [|? ? Hh Hrest]; subst.
      cbn [List.map List.flat_map]. rewrite !List.map_app.
      now rewrite (Hc' _ Hh), (IHrest Hrest). }
    destruct cs as [|c0 cs0]; [now destruct (0 <? depth - 1)%Z|].
    assert (Hdeep : (0 < depth - 1)%Z).
    { pose proof (nodeHeight_pos c0). simpl in Hd. lia. }
    apply Z.ltb_lt in Hdeep. rewrite Hdeep.
    cbn [List.map]. f_equal.
    apply (Hgen (depth - 1)%Z).
    apply List.Forall_forall. intros c Hin.
    pose proof (fold_max_member nodeHeight (c0 :: cs0) c Hin). lia.
Qed.

End IndexFacts.

(** A result of path resolution is a real path: the node has the requested
    id up to normalization, and the ancestors followed by the node start at
    the root and descend from each element to one of its children. *)
Theorem findNodePath_result_is_a_path :
  forall root nodeId res,
    Nodes.findNodePath root nodeId = Some res ->
    Nodes.normalizeNodeId (id (Nodes.node res)) = Nodes.normalizeNodeId nodeId
    /\ In (Nodes.node res) (Nodes.nodesOf root)
    /\ List.hd_error (Nodes.ancestors res ++ [Nodes.node res]) = Some root
    /\ NodeIndex.linked (Nodes.ancestors res ++ [Nodes.node res]).
Proof.
  intros root nodeId res Hres.
  rewrite PathFacts.findNodePath_preorder in Hres.
  destruct (List.find (Nodes.matches (Nodes.normalizeNodeId nodeId))
              (Nodes.preorder root)) as [[anc m]|] eqn:F; [|discriminate].
  injection Hres as <-. simpl.
  apply List.find_some in F as [Hin Hm].
  split; [now apply JSStringFacts.eqb_eq in Hm|].
  split.
  { rewrite <- (TreeFacts.preorder_nodes root []).
    apply List.in_map_iff. now exists (anc, m). }
  destruct (IndexFacts.preorderFrom_chain root [] anc m Hin) as [path [E Hl]].
  rewrite E. simpl. now split.
Qed.

Lemma findNodePath_result_is_a_path_witness :
  exists res,
    Nodes.findNodePath Nodes.sampleDocument (lit " 2-1 ") = Some res
    /\ NodeIndex.linked (Nodes.ancestors res ++ [Nodes.node res]).
Proof.
  eexists. split; [reflexivity|].
  exact (proj2 (proj2 (proj2
    (findNodePath_result_is_a_path Nodes.sampleDocument (lit " 2-1 ") _ eq_refl)))).
Defined.

(** Path resolution returns the not-found signal exactly when no node of the
    graph has the requested id up to normalization. *)
Theorem findNodePath_null_iff :
  forall root nodeId,
    Nodes.findNodePath root nodeId = None
    <-> forall n, In n (Nodes.nodesOf root) ->
                  Nodes.normalizeNodeId (id n) <> Nodes.normalizeNodeId nodeId.
Proof.
  intros root nodeId. rewrite PathFacts.findNodePath_preorder.
  rewrite <- (TreeFacts.preorder_nodes root []).
  destruct (List.find (Nodes.matches (Nodes.normalizeNodeId nodeId))
              (Nodes.preorder root)) as [p|] eqn:F; simpl; split.
  - discriminate.
  - intros Hall. exfalso.
    apply List.find_some in F as [Hin Hm].
    apply JSStringFacts.eqb_eq in Hm.
    apply (Hall (snd p)); [|exact Hm].
    apply List.in_map_iff. now exists p.
  - intros _ n Hn E.
    apply List.in_map_iff in Hn as [p [<- Hp]].
    pose proof (List.find_none _ _ F p Hp) as Hno.
    unfold Nodes.matches in Hno. rewrite E in Hno.
    now rewrite JSStringFacts.eqb_refl in Hno.
  - reflexivity.
Qed.

(** The parent map records, for a normalized id, the normalized id of the
    parent of the last node in pre-order that has this id (nothing for the
    root), and has no entry when no node has it: among nodes with the same
    id the last one wins, where path resolution takes the first. *)
Theorem buildParentMap_last_in_preorder :
  forall root key,
    NodeIndex.buildParentMap root !! key
    = option_map NodeIndex.parentIdOf
        (List.find (Nodes.matches key) (List.rev (Nodes.preorder root))).
Proof. exact IndexFacts.buildParentMap_lookup. Qed.

(** When the normalized ids of the graph are pairwise distinct, the parent
    map and path resolution agree: the parent recorded for an id is the
    normalized id of the parent that path resolution returns, and nothing is
    recorded for an id that path resolution does not find. *)
Theorem buildParentMap_agrees_with_findNodePath :
  forall root nodeId,
    List.NoDup (List.map NodeIndex.normalizedId (Nodes.nodesOf root)) ->
    NodeIndex.getParent (NodeIndex.buildParentMap root) (Nodes.normalizeNodeId nodeId)
    = match Nodes.findNodePath root nodeId with
      | Some res => option_map NodeIndex.normalizedId (Nodes.parent res)
      | None => None
      end.
Proof.
  intros root nodeId Hnd. unfold NodeIndex.getParent.
  rewrite IndexFacts.buildParentMap_lookup, PathFacts.findNodePath_preorder.
  rewrite IndexFacts.find_rev_unique.
  - now destruct (List.find (Nodes.matches (Nodes.normalizeNodeId nodeId))
                    (Nodes.preorder root)).
  - rewrite <- (TreeFacts.preorder_nodes root []) in Hnd.
    unfold Nodes.preorder. now rewrite List.map_map in Hnd.
Qed.

Lemma buildParentMap_agrees_with_findNodePath_witness :
  NodeIndex.getParent (NodeIndex.buildParentMap Nodes.sampleDocument) (lit "3:1")
  = Some (lit "2:1").
Proof.
  refine (eq_trans
    (buildParentMap_agrees_with_findNodePath Nodes.sampleDocument (lit "3-1") _) _);
    [|reflexivity].
  repeat (constructor;
          [simpl; intros Hin;
           repeat (destruct Hin as [Hin | Hin]; [discriminate Hin|]);
           exact Hin|]).
  constructor.
Defined.

(** The page search returns a child of the document whose lower-cased name
    contains the lower-cased filter, and throws only when no page does; when
    some page name equals the filter up to case, the page returned is such a
    page, even if an earlier page merely contains the filter. *)
Theorem findPageNode_result (B : Builtins) :
  forall document pageFilter,
    match NodeIndex.findPageNode document pageFilter with
    | ExportCmd.Returns page =>
        In page (childList document)
        /\ NodeIndex.includes (toLowerCase (name page)) (toLowerCase pageFilter) = true
        /\ ((exists exact, In exact (childList document)
                           /\ toLowerCase (name exact) = toLowerCase pageFilter) ->
            toLowerCase (name page) = toLowerCase pageFilter)
    | ExportCmd.Throws _ =>
        forall page, In page (childList document) ->
          NodeIndex.includes (toLowerCase (name page)) (toLowerCase pageFilter) = false
    end.
Proof.
  intros document pageFilter. unfold NodeIndex.findPageNode. cbv zeta.
  destruct (List.find
              (fun page => JSString.eqb (toLowerCase (name page)) (toLowerCase pageFilter))
              (childList document)) as [exact|] eqn:E.
  - apply List.find_some in E as [Hin Hm]. apply JSStringFacts.eqb_eq in Hm.
    split; [exact Hin|]. split; [|intros _; exact Hm].
    rewrite Hm. apply IndexFacts.includes_refl.
  - destruct (List.find
                (fun page => NodeIndex.includes (toLowerCase (name page))
                               (toLowerCase pageFilter))
                (childList document)) as [partial|] eqn:P.
    + apply List.find_some in P as [Hin Hm].
      split; [exact Hin|]. split; [exact Hm|].
      intros [exact [Hex Hname]]. exfalso.
      pose proof (List.find_none _ _ E exact Hex) as Hno. cbv beta in Hno.
      rewrite Hname in Hno. now rewrite JSStringFacts.eqb_refl in Hno.
    + intros page Hin. exact (List.find_none _ _ P page Hin).
Qed.

Lemma findPageNode_result_witness :
  exists page,
    NodeIndex.findPageNode (H := integerBuiltins) Nodes.sampleDocument (lit "page a")
    = ExportCmd.Returns page
    /\ toLowerCase (Builtins := integerBuiltins) (name page) = lit "page a".
Proof.
  exists Nodes.pageNode. split; [reflexivity|].
  pose proof (findPageNode_result integerBuiltins Nodes.sampleDocument (lit "page a"))
    as Hres.
  change (NodeIndex.findPageNode (H := integerBuiltins) Nodes.sampleDocument
            (lit "page a")) with (ExportCmd.Returns Nodes.pageNode) in Hres.
  apply (proj2 (proj2 Hres)).
  exists Nodes.pageNode. split; [left|]; reflexivity.
Defined.

(** A projection has at most [depth] levels (one level for a depth below 1)
    and never more levels than the graph it projects. *)
Theorem toTree_height_bounded :
  forall n depth,
    (Z.of_nat (NodeIndex.treeHeight (Nodes.toTree n depth)) <= Z.max 1 depth)%Z
    /\ NodeIndex.treeHeight (Nodes.toTree n depth) <= NodeIndex.nodeHeight n.
Proof. intros n depth. apply IndexFacts.treeHeight_toTree. Qed.

(** When [depth] is at least the number of levels of the graph, the
    projection shows every node: its nodes in pre-order carry the
    normalized ids, the names and the types of the nodes of the graph in
    pre-order. *)
Theorem toTree_complete_when_deep_enough :
  forall n depth,
    (Z.of_nat (NodeIndex.nodeHeight n) <= depth)%Z ->
    List.map NodeIndex.shownOfTree (Nodes.treeNodes (Nodes.toTree n depth))
    = List.map NodeIndex.shown (Nodes.nodesOf n).
Proof. intros n depth. apply IndexFacts.toTree_complete. Qed.

Lemma toTree_complete_when_deep_enough_witness :
  List.map NodeIndex.shownOfTree (Nodes.treeNodes (Nodes.toTree Nodes.sampleDocument 4))
  = List.map NodeIndex.shown (Nodes.nodesOf Nodes.sampleDocument).
Proof.
  apply (toTree_complete_when_deep_enough Nodes.sampleDocument 4%Z).
  simpl. lia.
Defined.

(** ** Traversals and the audit statistics *)

Module TraversalFacts.
Import Nodes Shape.

Lemma fold_children_flat_map {S : Type} (walk : FigmaNode -> S -> S)
    (fn : FigmaNode -> S -> S) cs :
  Forall (fun c => forall st,
            walk c st = List.fold_left (fun acc m => fn m acc) (nodesOf c) st) cs ->
  forall st,
    List.fold_left (fun acc child => walk child acc) cs st
    = List.fold_left (fun acc m => fn m acc) (List.flat_map nodesOf cs) st.
Proof.
  induction 1 as [|c rest Hc _ IH]; intros st; simpl; [reflexivity|].
  now rewrite List.fold_left_app, Hc, IH.
Qed.

(** [traverse] of the diff engine calls the visitor once on every node, in
    pre-order. *)
Lemma diff_traverse_preorder {S : Type} (fn : FigmaNode -> S -> S) n :
  forall st,
    Diff.traverse fn n st = List.fold_left (fun acc m => fn m acc) (nodesOf n) st.
Proof.
  induction n as [n Hc | n cs Hc IH] using FigmaNode_ind'; intros st;
    destruct n as [i nm ty ch fl sk ef sy ss bb chs rc]; simpl in Hc; subst ch.
  - reflexivity.
  - simpl. now apply fold_children_flat_map.
Qed.

Lemma audit_traverse_preorder {S : Type} (fn : FigmaNode -> S -> S) n :
  forall st,
    Audit.traverseNodes fn n st
    = List.fold_left (fun acc m => fn m acc) (nodesOf n) st.
Proof.
  induction n as [n Hc | n cs Hc IH] using FigmaNode_ind'; intros st;
    destruct n as [i nm ty ch fl sk ef sy ss bb chs rc]; simpl in Hc; subst ch.
  - reflexivity.
  - simpl. now apply fold_children_flat_map.
Qed.

Lemma setAdd_length item xs :
  List.length (Diff.setAdd item xs) <= S (List.length xs).
Proof.
  unfold Diff.setAdd. destruct (Diff.has xs item); [lia|].
  rewrite List.length_app. simpl. lia.
Qed.

Lemma addNumber_length v xs :
  List.length (Audit.addNumber v xs) <= S (List.length xs).
Proof.
  unfold Audit.addNumber. destruct (List.existsb (Audit.sameValueZero v) xs); [lia|].
  rewrite List.length_app. simpl. lia.
Qed.

Section WithBuiltins.
Context `{Builtins}.

Lemma visit_counts nodes :
  forall acc,
    let final := List.fold_left (fun a m => Audit.visit m a) nodes acc in
    Audit.acc_totalNodes final = Audit.acc_totalNodes acc + List.length nodes
    /\ Audit.acc_components final
       = Audit.acc_components acc + List.length (List.filter (hasType "COMPONENT") nodes)
    /\ Audit.acc_componentInstances final
       = Audit.acc_componentInstances acc
         + List.length (List.filter (hasType "INSTANCE") nodes)
    /\ Audit.acc_frames final
       = Audit.acc_frames acc + List.length (List.filter (hasType "FRAME") nodes)
    /\ Audit.acc_textNodes final
       = Audit.acc_textNodes acc + List.length (List.filter (hasType "TEXT") nodes).
Proof.
  induction nodes as [|m nodes IH]; intros acc final.
  - subst final. simpl. repeat split; lia.
  - subst final. simpl List.fold_left.
    destruct (IH (Audit.visit m acc)) as (H1 & H2 & H3 & H4 & H5).
    rewrite H1, H2, H3, H4, H5. clear H1 H2 H3 H4 H5 IH.
    unfold Audit.visit. cbn [Audit.acc_totalNodes Audit.acc_components
      Audit.acc_componentInstances Audit.acc_frames Audit.acc_textNodes].
    cbn [List.filter List.length]. unfold hasType, Audit.bump.
    repeat split;
      try match goal with
      | |- context [JSString.eqb (type m) ?t] => destruct (JSString.eqb (type m) t)
      end; simpl; lia.
Qed.

Lemma visit_fonts_bounded nodes :
  forall acc,
    List.length (Audit.fonts acc) <= Audit.acc_textNodes acc ->
    List.length (Audit.fontSizes acc) <= Audit.acc_textNodes acc ->
    let final := List.fold_left (fun a m => Audit.visit m a) nodes acc in
    List.length (Audit.fonts final) <= Audit.acc_textNodes final
    /\ List.length (Audit.fontSizes final) <= Audit.acc_textNodes final.
Proof.
  induction nodes as [|m nodes IH]; intros acc Hf Hs final; [now split|].
  subst final. simpl List.fold_left. apply IH.
  - unfold Audit.visit. cbn [Audit.fonts Audit.acc_textNodes]. unfold Audit.bump.
    destruct (JSString.eqb (type m) (lit "TEXT")); [|exact Hf].
    destruct (style m) as [st|]; [|lia].
    destruct (st !! "fontFamily") as [v|]; [|lia].
    destruct (truthy v); [|lia].
    pose proof (setAdd_length (ToString v) (Audit.fonts acc)). lia.
  - unfold Audit.visit. cbn [Audit.fontSizes Audit.acc_textNodes]. unfold Audit.bump.
    destruct (JSString.eqb (type m) (lit "TEXT")); [|exact Hs].
    destruct (style m) as [st|]; [|lia].
    destruct (st !! "fontSize") as [v|]; [|lia].
    destruct (truthy v); [|lia].
    pose proof (addNumber_length (ToNumber v) (Audit.fontSizes acc)). lia.
Qed.

Lemma deduct_coherent cond amount issue run :
  (0 < amount <= 15)%Z -> Audit.severity issue <> Audit.error ->
  coherent run -> coherent (Audit.deduct cond amount issue run).
Proof.
  intros Ha Hs (H1 & H2 & H3 & H4). unfold Audit.deduct.
  destruct cond; [|now repeat split; try apply H2].
  unfold coherent. cbn [fst snd]. repeat split.
  - lia.
  - intros E. lia.
  - intros E. now destruct (snd run).
  - apply List.Forall_app. split; [exact H3 | now constructor].
  - rewrite List.length_app. simpl. lia.
Qed.

Lemma applyRules_coherent acc k : coherent (Audit.applyRules acc k).
Proof.
  unfold Audit.applyRules. cbv zeta.
  repeat (apply deduct_coherent; [lia | discriminate |]).
  unfold coherent. simpl. repeat split; try lia. constructor.
Qed.

End WithBuiltins.

End TraversalFacts.

(** The audit counts what is in the subtree: [totalNodes] is the number of
    its nodes, each of the component, instance, frame and text counters is
    the number of nodes of that type, there are never more font families or
    font sizes than text nodes, and [detachedInstances] is always 0. *)
Theorem audit_stats_count_the_subtree (B : Builtins) :
  forall root k,
    let s := Audit.stats (Audit.audit root k) in
    let nodes := Nodes.nodesOf root in
    let ofType := fun t => List.length (List.filter (Shape.hasType t) nodes) in
    Audit.totalNodes s = List.length nodes
    /\ Audit.components s = ofType "COMPONENT"
    /\ Audit.componentInstances s = ofType "INSTANCE"
    /\ Audit.frames s = ofType "FRAME"
    /\ Audit.textNodes s = ofType "TEXT"
    /\ Audit.uniqueFonts s <= Audit.textNodes s
    /\ Audit.uniqueFontSizes s <= Audit.textNodes s
    /\ Audit.detachedInstances s = 0.
Proof.
  intros root k s nodes ofType. subst s. unfold Audit.audit, Audit.conclude.
  cbn [Audit.stats]. rewrite TraversalFacts.audit_traverse_preorder.
  fold nodes.
  destruct (TraversalFacts.visit_counts nodes Audit.accStart)
    as (H1 & H2 & H3 & H4 & H5).
  destruct (TraversalFacts.visit_fonts_bounded nodes Audit.accStart
              ltac:(simpl; lia) ltac:(simpl; lia)) as (H6 & H7).
  unfold Audit.statsOf. cbn [Audit.totalNodes Audit.components
    Audit.componentInstances Audit.frames Audit.textNodes Audit.uniqueFonts
    Audit.uniqueFontSizes Audit.detachedInstances].
  repeat apply conj; try assumption; try reflexivity.
Qed.

(** The audit score is never below 35, so the final clamp at 0 never
    changes it; the score is 100 exactly when no issue is reported; every
    issue costs at most 15 points; and no issue has severity [error]. *)
Theorem audit_score_and_issues (B : Builtins) :
  forall root k,
    let res := Audit.audit root k in
    (35 <= Audit.score res)%Z
    /\ Audit.score res
       = fst (Audit.applyRules
                (Audit.traverseNodes Audit.visit root Audit.accStart) k)
    /\ (Audit.score res = 100%Z <-> Audit.issues res = [])
    /\ (100 - 15 * Z.of_nat (List.length (Audit.issues res)) <= Audit.score res)%Z
    /\ Forall (fun i => Audit.severity i <> Audit.error) (Audit.issues res).
Proof.
  intros root k res. subst res. unfold Audit.audit.
  set (acc := Audit.traverseNodes Audit.visit root Audit.accStart).
  pose proof (AuditFacts.conclude_range acc k) as Hrange.
  destruct (TraversalFacts.applyRules_coherent acc k) as (H1 & H2 & H3 & H4).
  unfold Audit.conclude in *. cbn [Audit.score Audit.issues] in *.
  assert (E : Z.max 0 (fst (Audit.applyRules acc k)) = fst (Audit.applyRules acc k))
    by lia.
  rewrite E. repeat apply conj; try assumption; try lia; apply H2.
Qed.

(** ** Hex colors and the CSS map *)

Module CssFacts.
Import Styles Shape.

Lemma bytes_are_two_hex_digits :
  List.forallb byteIsTwoHexDigits (List.map Z.of_nat (List.seq 0 256)) = true.
Proof. vm_compute. reflexivity. Qed.

Lemma byte_two_hex_digits z :
  (0 <= z <= 255)%Z -> byteIsTwoHexDigits z = true.
Proof.
  intros Hz.
  pose proof bytes_are_two_hex_digits as Hall.
  rewrite List.forallb_forall in Hall. apply Hall.
  apply List.in_map_iff. exists (Z.to_nat z). split; [lia|].
  apply List.in_seq. lia.
Qed.

Lemma toByteHex_unit n :
  unitInterval n ->
  List.length (toByteHex n) = 2
  /\ Forall (fun c => isHexDigit c = true) (toByteHex n).
Proof.
  intros [q [-> [Hlo Hhi]]].
  unfold toByteHex, JSNumber.mul, JSNumber.round, toString16.
  rewrite Qfloor_Z.
  assert (Hz : (0 <= Qfloor (q * 255 + (1 # 2)) <= 255)%Z).
  { split.
    - change 0%Z with (Qfloor 0). apply Qfloor_resp_le. lra.
    - assert (Hlt : (Qfloor (q * 255 + (1 # 2)) < 256)%Z); [|lia].
      rewrite Zlt_Qlt.
      pose proof (Qfloor_le (q * 255 + (1 # 2))) as Hf.
      change (inject_Z 256) with 256%Q. lra. }
  pose proof (byte_two_hex_digits _ Hz) as Hb.
  unfold byteIsTwoHexDigits in Hb. apply andb_true_iff in Hb as [Hl Hd].
  split; [now apply Nat.eqb_eq in Hl|].
  apply List.Forall_forall. now apply List.forallb_forall.
Qed.

Lemma toHex_head r g b a : exists rest, toHex r g b a = 35%N :: rest.
Proof. unfold toHex. destruct (JSNumber.ltb a (Fin 1)); eexists; reflexivity. Qed.

Lemma firstColor_truthy paints :
  truthyStr (firstColor paints) = isSome (firstColor paints)
  /\ (isSome (firstColor paints) = true ->
      Some (strOf (firstColor paints)) = firstColor paints).
Proof.
  induction paints as [|fill rest IH]; simpl; [split; [reflexivity | discriminate]|].
  unfold colorFromFill.
  destruct (negb (JSString.eqb (fill_type fill) (lit "SOLID"))); [exact IH|].
  destruct (color fill) as [c|]; [|exact IH].
  destruct (toHex_head (r c) (g c) (b c) (fillAlpha fill c)) as [rest' ->].
  now split.
Qed.

Section WithBuiltins.
Context `{Builtins}.

Lemma css_color n :
  css (buildStyleDetails n) !! "color"
  = (if JSString.eqb (type n) (lit "TEXT") then firstSolidFill n else None)
  /\ css (buildStyleDetails n) !! "background-color"
     = (if JSString.eqb (type n) (lit "TEXT") then None else firstSolidFill n).
Proof.
  unfold buildStyleDetails; cbn [css]; unfold setSome.
  unfold firstSolidFill.
  destruct (firstColor_truthy (match fills n with Some fs => fs | None => [] end))
    as [-> Hstr].
  destruct (isSome (firstColor match fills n with Some fs => fs | None => [] end))
    eqn:Hs.
  - specialize (Hstr eq_refl).
    destruct (JSString.eqb (type n) (lit "TEXT")); cbn [andb];
      split; StylesFacts.skip_other_keys;
      rewrite ?lookup_insert_eq, ?lookup_insert_ne, ?lookup_empty by discriminate;
      auto.
  - assert (E : firstColor match fills n with Some fs => fs | None => [] end = None)
      by (destruct (firstColor match fills n with Some fs => fs | None => [] end);
          [discriminate | reflexivity]).
    rewrite E.
    destruct (JSString.eqb (type n) (lit "TEXT")); cbn [andb];
      split; StylesFacts.skip_other_keys;
      rewrite ?lookup_empty; reflexivity.
Qed.

Lemma css_border n :
  css (buildStyleDetails n) !! "border-color" = firstSolidStroke n
  /\ css (buildStyleDetails n) !! "border-style"
     = (if isSome (firstSolidStroke n) then Some (lit "solid") else None).
Proof.
  unfold buildStyleDetails; cbn [css]; unfold setSome.
  unfold firstSolidStroke.
  destruct (firstColor_truthy (match strokes n with Some fs => fs | None => [] end))
    as [-> Hstr].
  destruct (isSome (firstColor match strokes n with Some fs => fs | None => [] end))
    eqn:Hs.
  - specialize (Hstr eq_refl).
    split; StylesFacts.skip_other_keys;
      rewrite ?lookup_insert_eq, ?lookup_insert_ne, ?lookup_insert_eq by discriminate;
      auto.
  - assert (E : firstColor match strokes n with Some fs => fs | None => [] end = None)
      by (destruct (firstColor match strokes n with Some fs => fs | None => [] end);
          [discriminate | reflexivity]).
    rewrite E.
    split; StylesFacts.skip_other_keys;
      rewrite ?lookup_insert_ne, ?lookup_empty by discriminate; reflexivity.
Qed.

End WithBuiltins.

End CssFacts.

Module PaddingShape.
Import Styles Shape.

Lemma round2_hundredths v : nonNegative v -> hundredths (Some (round2 v)).
Proof.
  intros [q [-> Hq]]. exists (Qfloor (q * 100 + (1 # 2))). split; [|reflexivity].
  change 0%Z with (Qfloor 0). apply Qfloor_resp_le. lra.
Qed.

Lemma padding_by_source n :
  let p := inferPaddingFromChildren n in
  match source p with
  | explicit =>
      isSome (top p) || isSome (right p) || isSome (bottom p) || isSome (left p) = true
      /\ top p = toNumber (rec n !! "paddingTop")
      /\ right p = toNumber (rec n !! "paddingRight")
      /\ bottom p = toNumber (rec n !! "paddingBottom")
      /\ left p = toNumber (rec n !! "paddingLeft")
  | inferred =>
      hundredths (top p) /\ hundredths (right p)
      /\ hundredths (bottom p) /\ hundredths (left p)
  | none =>
      top p = None /\ right p = None /\ bottom p = None /\ left p = None
  end.
Proof.
  cbv zeta. rewrite PaddingCases.inferPadding_unfold. cbv zeta.
  destruct (isSome (toNumber (rec n !! "paddingTop"))
            || isSome (toNumber (rec n !! "paddingRight"))
            || isSome (toNumber (rec n !! "paddingBottom"))
            || isSome (toNumber (rec n !! "paddingLeft"))) eqn:E.
  { cbn [source top right bottom left]. now rewrite E. }
  destruct (absoluteBoundingBox n) as [pb|]; [|now repeat split].
  destruct (boundedChildren (childList n)) as [|b0 bs]; [now repeat split|].
  match goal with
  | |- context [if ?c then _ else _] => destruct c eqn:G
  end; [now repeat split|].
  apply PaddingCases.all_nonNegative_iff in G as (HT & HR & HB & HL).
  cbn [source top right bottom left].
  repeat split; now apply round2_hundredths.
Qed.

Section WithBuiltins.
Context `{Builtins}.

Lemma css_padding n :
  let p := inferPaddingFromChildren n in
  css (buildStyleDetails n) !! "padding"
  = if isSome (top p) || isSome (right p) || isSome (bottom p) || isSome (left p)
    then Some (px (or0 (top p)) ++ lit " " ++ px (or0 (right p)) ++ lit " "
                 ++ px (or0 (bottom p)) ++ lit " " ++ px (or0 (left p)))
    else None.
Proof.
  cbv zeta. unfold buildStyleDetails; cbn [css]; unfold setSome.
  StylesFacts.skip_other_keys.
  all: unfold setWhen.
  all: match goal with
       | |- (if ?c then _ else _) !! _ = _ => destruct c
       end.
  all: rewrite ?lookup_insert_eq; try reflexivity.
  all: StylesFacts.skip_other_keys; apply lookup_empty.
Qed.

End WithBuiltins.

End PaddingShape.

(** For red, green and blue between 0 and 1 and a non-negative alpha, the
    hex color is [#] followed by lower-case hexadecimal digits only: six of
    them when alpha is at least 1, eight when it is below 1.  The style
    deriver and the diff engine compute the same string. *)
Theorem toHex_well_formed :
  forall r g b qa,
    Shape.unitInterval r -> Shape.unitInterval g -> Shape.unitInterval b ->
    (0 <= qa)%Q ->
    exists digits,
      Styles.toHex r g b (Fin qa) = 35%N :: digits
      /\ Forall (fun c => Shape.isHexDigit c = true) digits
      /\ List.length digits = (if JSNumber.Qltb qa 1 then 8 else 6)
      /\ Diff.toHex r g b (Fin qa) = Styles.toHex r g b (Fin qa).
Proof.
  intros r g b qa Hr Hg Hb Ha.
  destruct (CssFacts.toByteHex_unit r Hr) as [Lr Dr].
  destruct (CssFacts.toByteHex_unit g Hg) as [Lg Dg].
  destruct (CssFacts.toByteHex_unit b Hb) as [Lb Db].
  unfold Styles.toHex. cbn [JSNumber.ltb].
  destruct (JSNumber.Qltb qa 1) eqn:E.
  - apply JSNumberFacts.Qltb_lt in E.
    assert (Hua : Shape.unitInterval (Fin qa)).
    { exists qa. repeat split; [exact Ha | now apply Qlt_le_weak]. }
    destruct (CssFacts.toByteHex_unit _ Hua) as [La Da].
    eexists. split; [reflexivity|]. split; [|split].
    + repeat (apply List.Forall_app; split); assumption.
    + rewrite !List.length_app. lia.
    + unfold Diff.toHex. cbn [JSNumber.ltb].
      apply JSNumberFacts.Qltb_lt in E. now rewrite E.
  - eexists. split; [reflexivity|]. split; [|split].
    + repeat (apply List.Forall_app; split); assumption.
    + rewrite !List.length_app. lia.
    + unfold Diff.toHex. cbn [JSNumber.ltb]. now rewrite E.
Qed.

Lemma toHex_well_formed_witness :
  exists digits,
    Styles.toHex (Fin 1) (Fin (1 # 2)) (Fin 0) (Fin (1 # 5)) = 35%N :: digits
    /\ List.length digits = 8.
Proof.
  destruct (toHex_well_formed (Fin 1) (Fin (1 # 2)) (Fin 0) (1 # 5))
    as [digits [E [_ [L _]]]].
  - exists 1%Q. repeat split; discriminate.
  - exists (1 # 2)%Q. repeat split; discriminate.
  - exists 0%Q. repeat split; discriminate.
  - discriminate.
  - exists digits. split; [exact E | exact L].
Defined.

(** The first solid fill of a text node becomes [color] and that of any
    other node [background-color], never both; the first solid stroke
    becomes [border-color], and [border-style: solid] is emitted exactly
    when there is one. *)
Theorem css_fill_and_stroke (B : Builtins) :
  forall n,
    let css := Styles.css (Styles.buildStyleDetails n) in
    let isText := JSString.eqb (type n) (lit "TEXT") in
    css !! "color" = (if isText then Styles.firstSolidFill n else None)
    /\ css !! "background-color" = (if isText then None else Styles.firstSolidFill n)
    /\ (css !! "color" = None \/ css !! "background-color" = None)
    /\ css !! "border-color" = Styles.firstSolidStroke n
    /\ css !! "border-style"
       = (if Styles.isSome (Styles.firstSolidStroke n) then Some (lit "solid") else None).
Proof.
  intros n css isText. subst css isText.
  destruct (CssFacts.css_color n) as [Hc Hb].
  destruct (CssFacts.css_border n) as [Hbc Hbs].
  repeat apply conj; try assumption.
  rewrite Hc, Hb. destruct (JSString.eqb (type n) (lit "TEXT")); auto.
Qed.


(** The CSS map has a [padding] property exactly when the padding source is
    not [none]; the property lists top, right, bottom and left in pixels, an
    absent edge counting as 0. *)
Theorem css_padding_follows_source (B : Builtins) :
  forall n,
    let details := Styles.buildStyleDetails n in
    let p := Styles.padding (Styles.layout details) in
    (Styles.source p = Styles.none -> Styles.css details !! "padding" = None)
    /\ (Styles.source p <> Styles.none ->
        Styles.css details !! "padding"
        = Some (Styles.px (Styles.or0 (Styles.top p)) ++ lit " "
                  ++ Styles.px (Styles.or0 (Styles.right p)) ++ lit " "
                  ++ Styles.px (Styles.or0 (Styles.bottom p)) ++ lit " "
                  ++ Styles.px (Styles.or0 (Styles.left p)))).
Proof.
  intros n. cbv zeta.
  change (Styles.padding (Styles.layout (Styles.buildStyleDetails n)))
    with (Styles.inferPaddingFromChildren n).
  rewrite !PaddingShape.css_padding. cbv zeta.
  pose proof (PaddingShape.padding_by_source n) as Hs. cbv zeta in Hs.
  remember (Styles.inferPaddingFromChildren n) as p eqn:Ep. clear Ep.
  destruct (Styles.source p); split; intros Hsrc; try congruence.
  - destruct Hs as [-> _]. reflexivity.
  - destruct Hs as ([zt [_ ->]] & _). reflexivity.
  - destruct Hs as (-> & -> & -> & ->). reflexivity.
Qed.

Lemma css_padding_follows_source_witness :
  Styles.css (Styles.buildStyleDetails (H := integerBuiltins) Nodes.sampleDocument)
    !! "padding" = None.
Proof.
  apply (proj1 (css_padding_follows_source integerBuiltins Nodes.sampleDocument)).
  reflexivity.
Defined.

(** ** Snapshots and the diff report *)

Module SnapshotFacts.
Import Nodes Diff DiffReport.

Lemma In_setAdd item xs c : In c (setAdd item xs) <-> In c xs \/ c = item.
Proof.
  unfold setAdd. destruct (has xs item) eqn:E.
  - apply DiffFacts.has_In in E. split; [tauto | intros [? | ->]; assumption].
  - rewrite List.in_app_iff. simpl. split; [intros [? | [<- | []]]; auto|].
    intros [? | ->]; auto.
Qed.

Lemma filter_self xs :
  List.filter (fun item => negb (has xs item)) xs = [].
Proof.
  assert (Hgen : forall ys, (forall y, In y ys -> In y xs) ->
                   List.filter (fun item => negb (has xs item)) ys = []).
  { induction ys as [|y ys IH]; intros Hsub; simpl; [reflexivity|].
    assert (E : has xs y = true) by (apply DiffFacts.has_In, Hsub; now left).
    rewrite E. simpl. apply IH. intros u Hu. apply Hsub. now right. }
  now apply Hgen.
Qed.

Lemma filter_nil_iff other xs :
  List.filter (fun item => negb (has other item)) xs = []
  <-> forall c, In c xs -> In c other.
Proof.
  split.
  - intros E c Hc.
    destruct (has other c) eqn:Hh; [now apply DiffFacts.has_In|].
    assert (Hin : In c (List.filter (fun item => negb (has other item)) xs)).
    { apply List.filter_In. split; [exact Hc | now rewrite Hh]. }
    rewrite E in Hin. destruct Hin.
  - intros Hsub. induction xs as [|x xs IH]; simpl; [reflexivity|].
    assert (E : has other x = true) by (apply DiffFacts.has_In, Hsub; now left).
    rewrite E. simpl. apply IH. intros c Hc. apply Hsub. now right.
Qed.

#[global] Instance lexLe_antisym : AntiSymm (=) lexLe.
Proof. intros s t. apply DiffFacts.lexLeb_antisym. Qed.

Lemma sorted_sets_equal xs ys :
  StronglySorted lexLe xs -> StronglySorted lexLe ys ->
  List.NoDup xs -> List.NoDup ys ->
  (forall c, In c xs <-> In c ys) -> xs = ys.
Proof.
  intros Sx Sy Nx Ny Hiff.
  apply (StronglySorted_unique lexLe); try assumption.
  apply NoDup_Permutation; try (now apply NoDup_ListNoDup).
  intros c. rewrite !list_elem_of_In. apply Hiff.
Qed.

Section WithBuiltins.
Context `{Builtins}.

Lemma styleSignature_nonempty n sig : styleSignature n = Some sig -> sig <> [].
Proof.
  unfold styleSignature.
  destruct (negb (JSString.eqb (type n) (lit "TEXT"))); [discriminate|].
  intros [= <-] E. apply List.app_eq_nil in E as [_ E]. discriminate E.
Qed.

Lemma firstSolidFillColor_nonempty n c : firstSolidFillColor n = Some c -> c <> [].
Proof.
  unfold firstSolidFillColor.
  destruct (fills n) as [fs|]; [|discriminate].
  destruct (List.find _ fs) as [fill|]; [|discriminate].
  destruct (color fill) as [col|]; [|discriminate].
  intros [= <-]. unfold toHex.
  destruct (JSNumber.ltb _ _); discriminate.
Qed.

Lemma fold_visit_sets nodes :
  forall acc c,
    let final := List.fold_left (fun a m => visit m a) nodes acc in
    (In c (styleSet final)
     <-> In c (styleSet acc) \/ exists m, In m nodes /\ styleSignature m = Some c)
    /\ (In c (fillSet final)
        <-> In c (fillSet acc)
            \/ exists m, In m nodes /\ firstSolidFillColor m = Some c).
Proof.
  induction nodes as [|m nodes IH]; intros acc c final; subst final.
  - simpl. split; (split; [tauto | intros [? | [? [[] _]]]; assumption]).
  - simpl List.fold_left. destruct (IH (visit m acc) c) as [IHs IHf].
    rewrite IHs, IHf. clear IHs IHf IH. unfold visit. cbn [styleSet fillSet].
    split.
    + destruct (styleSignature m) as [[|ch sig]|] eqn:E.
      * exfalso. now apply (styleSignature_nonempty m [] E).
      * rewrite In_setAdd. naive_solver.
      * naive_solver.
    + destruct (firstSolidFillColor m) as [[|ch col]|] eqn:E.
      * exfalso. now apply (firstSolidFillColor_nonempty m [] E).
      * rewrite In_setAdd. naive_solver.
      * naive_solver.
Qed.

Lemma snapshot_members n c :
  (In c (textStyles (snapshot n))
   <-> exists m, In m (nodesOf n) /\ styleSignature m = Some c)
  /\ (In c (fillColors (snapshot n))
      <-> exists m, In m (nodesOf n) /\ firstSolidFillColor m = Some c).
Proof.
  unfold snapshot. cbn [textStyles fillColors].
  rewrite !DiffFacts.sortStrings_In, TraversalFacts.diff_traverse_preorder.
  destruct (fold_visit_sets (nodesOf n)
              {| textParts := []; styleSet := []; fillSet := [] |} c) as [Hs Hf].
  cbv zeta in Hs, Hf. rewrite Hs, Hf. simpl. tauto.
Qed.

End WithBuiltins.

Lemma differs_refl v :
  (forall x, v = LNumber (Some x) -> x <> NaN) -> differs v v = false.
Proof.
  destruct v as [[x|]|[s|]|k]; simpl; intros Hx; try reflexivity.
  - destruct x as [| | |q]; simpl; try reflexivity.
    + now elim (Hx NaN).
    + now rewrite Qeq_bool_refl.
  - now rewrite JSStringFacts.eqb_refl.
  - now rewrite Nat.eqb_refl.
Qed.

End SnapshotFacts.

(** The two sets of a snapshot cover the whole subtree: a style signature
    (a fill color) belongs to the snapshot exactly when some node of the
    subtree has that signature (has that color as its first solid fill);
    and neither list repeats a member. *)
Theorem snapshot_sets_cover_the_subtree (B : Builtins) :
  forall n c,
    (In c (Diff.textStyles (Diff.snapshot n))
     <-> exists m, In m (Nodes.nodesOf n) /\ Diff.styleSignature m = Some c)
    /\ (In c (Diff.fillColors (Diff.snapshot n))
        <-> exists m, In m (Nodes.nodesOf n) /\ Diff.firstSolidFillColor m = Some c)
    /\ List.NoDup (Diff.textStyles (Diff.snapshot n))
    /\ List.NoDup (Diff.fillColors (Diff.snapshot n)).
Proof.
  intros n c.
  destruct (SnapshotFacts.snapshot_members n c) as [Hs Hf].
  destruct (DiffFacts.snapshot_sets n) as [[_ N1] [_ N2]].
  repeat apply conj; assumption || apply Hs || apply Hf.
Qed.

(** A diff of two nodes reports no added and no removed style signature or
    fill color exactly when the two snapshots hold the same lists of
    signatures and of colors. *)
Theorem diff_styles_empty_iff_same_sets (B : Builtins) :
  forall nodeA nodeB,
    let sa := Diff.snapshot nodeA in
    let sb := Diff.snapshot nodeB in
    let d := Diff.buildDiffStyles sa sb in
    (Diff.textStylesAddedInB d = [] /\ Diff.textStylesRemovedFromA d = []
     /\ Diff.fillColorsAddedInB d = [] /\ Diff.fillColorsRemovedFromA d = [])
    <-> (Diff.textStyles sa = Diff.textStyles sb
         /\ Diff.fillColors sa = Diff.fillColors sb).
Proof.
  intros nodeA nodeB sa sb d. subst d.
  unfold Diff.buildDiffStyles, Diff.arrayDiff.
  cbn [Diff.added Diff.removed Diff.textStylesAddedInB Diff.textStylesRemovedFromA
       Diff.fillColorsAddedInB Diff.fillColorsRemovedFromA].
  destruct (DiffFacts.snapshot_sets nodeA) as [[SA1 NA1] [SA2 NA2]].
  destruct (DiffFacts.snapshot_sets nodeB) as [[SB1 NB1] [SB2 NB2]].
  fold sa in SA1, NA1, SA2, NA2. fold sb in SB1, NB1, SB2, NB2.
  split.
  - intros (H1 & H2 & H3 & H4).
    rewrite SnapshotFacts.filter_nil_iff in H1, H2, H3, H4.
    split; apply SnapshotFacts.sorted_sets_equal; try assumption;
      intros c; split; auto.
  - intros [-> ->]. now rewrite !SnapshotFacts.filter_self.
Qed.

(** A layout entry is reported only for a layout key whose two values
    differ, with those two values; the text previews are the first 180
    code units of each text.  Diffing a snapshot against itself reports no
    layout entry, no text change and no style or color change, provided
    none of its numeric layout fields is NaN. *)
Theorem buildDiff_reports_only_differences :
  (forall a b e,
      In e (DiffReport.layout (DiffReport.buildDiff a b)) ->
      DiffReport.differs (DiffReport.entry_a e) (DiffReport.entry_b e) = true
      /\ exists read,
           In (DiffReport.entry_key e, read) DiffReport.layoutKeys
           /\ DiffReport.entry_a e = read a /\ DiffReport.entry_b e = read b)
  /\ (forall a b,
        let t := DiffReport.text (DiffReport.buildDiff a b) in
        (DiffReport.changed t = false <-> Diff.textContent a = Diff.textContent b)
        /\ DiffReport.aPreview t = List.firstn 180 (Diff.textContent a)
        /\ List.length (DiffReport.aPreview t) <= 180
        /\ List.length (DiffReport.bPreview t) <= 180)
  /\ (forall s,
        DiffReport.numbersComparable s ->
        let d := DiffReport.buildDiff s s in
        DiffReport.layout d = []
        /\ DiffReport.changed (DiffReport.text d) = false
        /\ DiffReport.styles d
           = {| Diff.textStylesAddedInB := []; Diff.textStylesRemovedFromA := [];
                Diff.fillColorsAddedInB := []; Diff.fillColorsRemovedFromA := [] |}).
Proof.
  repeat apply conj.
  - intros a b e He. unfold DiffReport.buildDiff in He. cbn [DiffReport.layout] in He.
    apply List.in_flat_map in He as [[key read] [Hk He]].
    destruct (DiffReport.differs (read a) (read b)) eqn:E; [|destruct He].
    destruct He as [<- | []]. cbn. split; [exact E|].
    exists read. now repeat split.
  - intros a b. cbn. repeat apply conj.
    + rewrite negb_false_iff. apply JSStringFacts.eqb_eq.
    + rewrite negb_false_iff. apply JSStringFacts.eqb_eq.
    + reflexivity.
    + apply List.firstn_le_length.
    + apply List.firstn_le_length.
  - intros s Hcmp. unfold DiffReport.numbersComparable in Hcmp.
    repeat match goal with
    | H : Forall _ (_ :: _) |- _ =>
        let Hh := fresh "Hn" in
        apply List.Forall_cons_iff in H as [Hh H]
    end.
    unfold DiffReport.buildDiff.
    cbn [DiffReport.layout DiffReport.text DiffReport.changed DiffReport.styles].
    repeat apply conj.
    + unfold DiffReport.layoutKeys. cbn [List.flat_map].
      rewrite !SnapshotFacts.differs_refl; [reflexivity|..];
        intros x [= E]; congruence.
    + now rewrite JSStringFacts.eqb_refl.
    + unfold Diff.buildDiffStyles, Diff.arrayDiff.
      cbn [Diff.added Diff.removed]. now rewrite !SnapshotFacts.filter_self.
Qed.

Lemma buildDiff_reports_only_differences_witness :
  DiffReport.layout
    (DiffReport.buildDiff
       (Diff.snapshot (H := integerBuiltins) Styles.inferredCard)
       (Diff.snapshot (H := integerBuiltins) Styles.inferredCard)) = [].
Proof.
  apply (proj2 (proj2 buildDiff_reports_only_differences)).
  repeat constructor; discriminate.
Defined.

(** ** Text extraction, previews and child summaries *)

Module TextFacts.
Import Nodes TextCmd.

Section WithBuiltins.
Context `{Builtins}.

Lemma collectText_preorder n :
  forall out, collectText n out = out ++ List.flat_map textOf (nodesOf n).
Proof.
  induction n as [n Hc | n cs Hc IH] using FigmaNode_ind'; intros out;
    destruct n as [i nm ty ch fl sk ef sy ss bb chs rc]; simpl in Hc; subst ch.
  - simpl. unfold textOf. simpl.
    destruct (JSString.eqb ty (lit "TEXT")); [|now rewrite List.app_nil_r].
    destruct (trim _); now rewrite ?List.app_nil_r.
  - set (n := mkNode i nm ty (Some cs) fl sk ef sy ss bb chs rc) in *.
    rewrite TreeFacts.nodesOf_unfold. cbn [List.flat_map childList children n].
    change (collectText n out) with
      (List.fold_left (fun acc child => collectText child acc) cs
         (if JSString.eqb ty (lit "TEXT") then
            match trim (ToString (orElse chs (JStr []))) with
            | [] => out
            | c :: t => out ++ [c :: t]
            end
          else out)).
    assert (Hhead : (if JSString.eqb ty (lit "TEXT") then
                       match trim (ToString (orElse chs (JStr []))) with
                       | [] => out
                       | c :: t => out ++ [c :: t]
                       end
                     else out) = out ++ textOf n).
    { unfold textOf, n. simpl.
      destruct (JSString.eqb ty (lit "TEXT")); [|now rewrite List.app_nil_r].
      destruct (trim _); now rewrite ?List.app_nil_r. }
    rewrite Hhead. rewrite List.app_assoc. generalize (out ++ textOf n).
    clearbody n. clear Hhead.
    induction IH as [|c rest Hc' _ IHrest]; intros start; simpl;
      [now rewrite List.app_nil_r|].
    now rewrite Hc', IHrest, List.flat_map_app, List.app_assoc.
Qed.

Lemma collectTextNodes_texts n :
  forall page out,
    List.map entry_text (collectTextNodes n page out)
    = List.map entry_text out ++ List.flat_map textOf (nodesOf n).
Proof.
  induction n as [n Hc | n cs Hc IH] using FigmaNode_ind'; intros page out;
    destruct n as [i nm ty ch fl sk ef sy ss bb chs rc]; simpl in Hc; subst ch.
  - simpl. unfold textOf. simpl.
    destruct (JSString.eqb ty (lit "TEXT")); [|now rewrite List.app_nil_r].
    destruct (trim _); rewrite ?List.map_app, ?List.app_nil_r; reflexivity.
  - set (n := mkNode i nm ty (Some cs) fl sk ef sy ss bb chs rc) in *.
    rewrite TreeFacts.nodesOf_unfold. cbn [List.flat_map childList children n].
    change (collectTextNodes n page out) with
      (List.fold_left
         (fun acc child =>
            collectTextNodes child
              (if JSString.eqb (type child) (lit "CANVAS") then name child else page)
              acc)
         cs
         (if JSString.eqb ty (lit "TEXT") then
            match trim (ToString (orElse chs (JStr []))) with
            | [] => out
            | c :: t =>
                out ++ [ {| entry_id := i; entry_name := nm;
                            entry_page := page; entry_text := c :: t |} ]
            end
          else out)).
    assert (Hfold : forall start,
              List.map entry_text
                (List.fold_left
                   (fun acc child =>
                      collectTextNodes child
                        (if JSString.eqb (type child) (lit "CANVAS")
                         then name child else page) acc)
                   cs start)
              = List.map entry_text start
                  ++ List.flat_map textOf (List.flat_map nodesOf cs)).
    { clearbody n.
      induction IH as [|c rest Hc' _ IHrest]; intros start; simpl;
        [now rewrite List.app_nil_r|].
      now rewrite IHrest, Hc', List.flat_map_app, List.app_assoc. }
    rewrite Hfold. rewrite List.app_assoc. f_equal.
    unfold textOf, n. simpl.
    destruct (JSString.eqb ty (lit "TEXT")); [|now rewrite List.app_nil_r].
    destruct (trim _); rewrite ?List.map_app, ?List.app_nil_r; reflexivity.
Qed.

Lemma diff_textParts nodes :
  forall acc,
    Diff.textParts (List.fold_left (fun a m => Diff.visit m a) nodes acc)
    = Diff.textParts acc ++ List.flat_map textOf nodes.
Proof.
  induction nodes as [|m nodes IH]; intros acc; simpl;
    [now rewrite List.app_nil_r|].
  rewrite IH. unfold Diff.visit, textOf. cbn [Diff.textParts].
  destruct (JSString.eqb (type m) (lit "TEXT")); [|reflexivity].
  destruct (trim _); [reflexivity | now rewrite <- List.app_assoc].
Qed.

Lemma textOf_shape n text :
  In text (textOf n) -> text <> [] /\ Trimmed text.
Proof.
  unfold textOf. destruct (JSString.eqb (type n) (lit "TEXT")); [|intros []].
  pose proof (JSStringFacts.trim_Trimmed
                (ToString (orElse (characters n) (JStr [])))) as Ht.
  destruct (trim _) as [|c t]; [intros []|].
  intros [<- | []]. split; [discriminate | exact Ht].
Qed.

End WithBuiltins.

Lemma buildChildren_toTree n :
  forall depth, buildChildren n depth = tree_children (toTree n (depth + 1)).
Proof.
  induction n as [n Hc | n cs Hc IH] using FigmaNode_ind'; intros depth;
    rewrite TreeFacts.toTree_unfold; cbn [tree_children];
    replace (depth + 1 - 1)%Z with depth by lia;
    destruct n as [i nm ty ch fl sk ef sy ss bb chs rc]; simpl in Hc; subst ch;
    unfold childList; cbn [children]; simpl buildChildren.
  - destruct (Z.leb_spec depth 0), (Z.ltb_spec 0 depth); try lia; reflexivity.
  - destruct (Z.leb_spec depth 0), (Z.ltb_spec 0 depth); try lia; try reflexivity.
    apply List.map_ext_in. intros c Hin.
    rewrite List.Forall_forall in IH. rewrite (IH c Hin).
    rewrite (TreeFacts.toTree_unfold c depth). cbn [tree_children].
    replace (depth - 1 + 1 - 1)%Z with (depth - 1)%Z by lia.
    rewrite (TreeFacts.toTree_unfold c (depth - 1 + 1)). cbn [tree_children].
    replace (depth - 1 + 1 - 1)%Z with (depth - 1)%Z by lia.
    reflexivity.
Qed.

End TextFacts.

(** The text command, the inspect and comments commands and the diff engine
    extract the same text: the texts of the entries of [collectTextNodes] are
    the list built by [collectText], whatever the page, and the text content
    of a diff snapshot is that list joined by newlines.  Every extracted
    text is non-empty and has no whitespace at either end. *)
Theorem text_extraction_agrees (B : Builtins) :
  forall n page,
    List.map TextCmd.entry_text (TextCmd.collectTextNodes n page [])
      = TextCmd.collectText n []
    /\ Diff.textContent (Diff.snapshot n) = join [10%N] (TextCmd.collectText n [])
    /\ Forall (fun t => t <> [] /\ Trimmed t) (TextCmd.collectText n []).
Proof.
  intros n page.
  rewrite TextFacts.collectTextNodes_texts, TextFacts.collectText_preorder.
  repeat apply conj.
  - reflexivity.
  - unfold Diff.snapshot. cbn [Diff.textContent].
    now rewrite TraversalFacts.diff_traverse_preorder, TextFacts.diff_textParts.
  - apply List.Forall_forall. intros t Ht. simpl in Ht.
    apply List.in_flat_map in Ht as [m [_ Hm]].
    exact (TextFacts.textOf_shape m t Hm).
Qed.

(** The child summaries of the inspect command at a depth are the children
    of the tree projection one level deeper, for every integer depth. *)
Theorem buildChildren_is_toTree_children :
  forall n depth,
    TextCmd.buildChildren n depth
    = Nodes.tree_children (Nodes.toTree n (depth + 1)).
Proof. exact TextFacts.buildChildren_toTree. Qed.

(** The preview of the comments command never exceeds [maxLength] code
    units and is never empty; the preview of the inspect command, whose
    ellipsis is three dots, has [maxLength + 2] code units whenever the text
    is cut, and is the whole combined text otherwise. *)
Theorem previews_length :
  forall parts maxLength,
    1 <= maxLength ->
    (forall preview,
        TextCmd.buildNodeTextPreview parts maxLength = Some preview ->
        preview <> [] /\ List.length preview <= maxLength)
    /\ (List.length (TextCmd.combine parts) <= maxLength ->
        TextCmd.buildTextPreview parts maxLength = TextCmd.combine parts)
    /\ (maxLength < List.length (TextCmd.combine parts) ->
        List.length (TextCmd.buildTextPreview parts maxLength) = maxLength + 2).
Proof.
  intros parts maxLength Hmax. repeat apply conj.
  - intros preview. unfold TextCmd.buildNodeTextPreview.
    destruct parts as [|p ps]; [discriminate|].
    destruct (TextCmd.combine (p :: ps)) as [|c combined] eqn:E; [discriminate|].
    destruct (Nat.leb_spec (List.length (c :: combined)) maxLength) as [Hle|Hgt];
      intros [= <-].
    + split; [discriminate | exact Hle].
    + split; [now destruct (List.firstn (maxLength - 1) (c :: combined))|].
      rewrite List.length_app, List.length_firstn. simpl. lia.
  - intros Hle. unfold TextCmd.buildTextPreview.
    destruct (TextCmd.combine parts) as [|c combined]; [reflexivity|].
    apply Nat.leb_le in Hle. now rewrite Hle.
  - intros Hgt. unfold TextCmd.buildTextPreview.
    destruct (TextCmd.combine parts) as [|c combined]; [simpl in Hgt; lia|].
    destruct (Nat.leb_spec (List.length (c :: combined)) maxLength); [lia|].
    rewrite List.length_app, List.length_firstn.
    change (List.length (lit "...")) with 3. lia.
Qed.

Lemma previews_length_witness :
  List.length (TextCmd.buildTextPreview [lit "hello  world"; lit " again"] 8) = 10.
Proof.
  apply (proj2 (proj2 (previews_length [lit "hello  world"; lit " again"] 8
                         ltac:(lia)))).
  vm_compute. lia.
Defined.

(** ** Crop rectangles and file names *)

Module CropFacts.
Import ExportCmd ExportMore.

Lemma leb_false_gt v : leb v (Fin 0) = false -> JSNumber.isFinite v = true ->
  exists q, v = Fin q /\ (0 < q)%Q.
Proof.
  destruct v as [| | |q]; simpl; try discriminate.
  intros Hle _. exists q. split; [reflexivity|].
  apply Qnot_le_lt. intros Hq. apply Qle_bool_iff in Hq. congruence.
Qed.

Lemma max_Fin a b :
  exists m, JSNumber.max (Fin a) (Fin b) = Fin m
            /\ (a <= m)%Q /\ (b <= m)%Q /\ (m == a \/ m == b)%Q.
Proof.
  unfold JSNumber.max, JSNumber.ltb.
  destruct (JSNumber.Qltb a b) eqn:E.
  - apply JSNumberFacts.Qltb_lt in E. exists b.
    repeat split; [now apply Qlt_le_weak | apply Qle_refl | right; reflexivity].
  - apply JSNumberFacts.Qltb_ge in E. exists a.
    repeat split; [apply Qle_refl | exact E | left; reflexivity].
Qed.

Lemma min_Fin a b :
  exists m, JSNumber.min (Fin a) (Fin b) = Fin m
            /\ (m <= a)%Q /\ (m <= b)%Q.
Proof.
  unfold JSNumber.min, JSNumber.ltb.
  destruct (JSNumber.Qltb b a) eqn:E.
  - apply JSNumberFacts.Qltb_lt in E. exists b.
    repeat split; [now apply Qlt_le_weak | apply Qle_refl].
  - apply JSNumberFacts.Qltb_ge in E. exists a.
    repeat split; [apply Qle_refl | exact E].
Qed.

Lemma leb_Fin_false q : leb (Fin q) (Fin 0) = false -> (0 < q)%Q.
Proof.
  simpl. intros Hle. apply Qnot_le_lt. intros Hq.
  apply Qle_bool_iff in Hq. congruence.
Qed.

End CropFacts.

(** A crop rectangle is returned only for exactly four comma-separated
    fields that all parse to finite numbers, of which the width and the
    height are greater than 0; its fields are those four numbers in order.
    Any other input throws. *)
Theorem parseCropRect_valid (B : Builtins) :
  forall value,
    match ExportMore.parseCropRect value with
    | ExportCmd.Returns rect =>
        exists px py pw ph qx qy qw qh,
          NodeIndex.splitOn NodeIndex.COMMA value = [px; py; pw; ph]
          /\ StringToNumber (trim px) = Fin qx /\ StringToNumber (trim py) = Fin qy
          /\ StringToNumber (trim pw) = Fin qw /\ StringToNumber (trim ph) = Fin qh
          /\ (0 < qw)%Q /\ (0 < qh)%Q
          /\ rect = {| ExportMore.crop_x := Fin qx; ExportMore.crop_y := Fin qy;
                       ExportMore.crop_width := Fin qw;
                       ExportMore.crop_height := Fin qh |}
    | ExportCmd.Throws _ =>
        List.length (NodeIndex.splitOn NodeIndex.COMMA value) <> 4
        \/ (exists part, In part (NodeIndex.splitOn NodeIndex.COMMA value)
                         /\ JSNumber.isFinite (StringToNumber (trim part)) = false)
        \/ (exists pw ph,
              List.skipn 2 (NodeIndex.splitOn NodeIndex.COMMA value) = [pw; ph]
              /\ (ExportMore.leb (StringToNumber (trim pw)) (Fin 0) = true
                  \/ ExportMore.leb (StringToNumber (trim ph)) (Fin 0) = true))
    end.
Proof.
  intros value. unfold ExportMore.parseCropRect. cbv zeta.
  rewrite List.length_map.
  destruct (Nat.eqb_spec (List.length (NodeIndex.splitOn NodeIndex.COMMA value)) 4)
    as [Hlen|Hlen]; [|now left].
  cbn [negb orb].
  destruct (List.existsb _ _) eqn:Hfin.
  { right. left. apply List.existsb_exists in Hfin as [v [Hv Hnf]].
    apply List.in_map_iff in Hv as [part [<- Hpart]].
    exists part. split; [exact Hpart | now apply negb_true_iff]. }
  destruct (NodeIndex.splitOn NodeIndex.COMMA value)
    as [|px [|py [|pw [|ph [|extra rest]]]]]; try discriminate Hlen.
  cbn [List.map] in *. cbn [List.existsb] in Hfin.
  rewrite !orb_false_iff, !negb_false_iff in Hfin.
  destruct Hfin as (Fx & Fy & Fw & Fh & _).
  destruct (ExportMore.leb (StringToNumber (trim pw)) (Fin 0)) eqn:Lw.
  { right. right. exists pw, ph. split; [reflexivity | now left]. }
  destruct (ExportMore.leb (StringToNumber (trim ph)) (Fin 0)) eqn:Lh.
  { right. right. exists pw, ph. split; [reflexivity | now right]. }
  cbn [orb].
  destruct (CropFacts.leb_false_gt _ Lw Fw) as [qw [Ew Hw]].
  destruct (CropFacts.leb_false_gt _ Lh Fh) as [qh [Eh Hh]].
  destruct (StringToNumber (trim px)) as [| | |qx] eqn:Ex; try discriminate Fx.
  destruct (StringToNumber (trim py)) as [| | |qy] eqn:Ey; try discriminate Fy.
  exists px, py, pw, ph, qx, qy, qw, qh.
  rewrite Ew, Eh. now repeat split.
Qed.

(** For a crop rectangle and an image size that are finite, the region
    handed to the copy lies inside the image: its offsets are not negative,
    its width and height are greater than 0, and offset plus size does not
    exceed the image size in either direction. *)
Theorem cropRegion_inside_image :
  forall iw ih cx cy cw ch region,
    ExportMore.cropRegion (Fin iw) (Fin ih)
      {| ExportMore.crop_x := Fin cx; ExportMore.crop_y := Fin cy;
         ExportMore.crop_width := Fin cw; ExportMore.crop_height := Fin ch |}
    = ExportCmd.Returns region ->
    exists rx ry fw fh,
      region = {| ExportMore.region_x := Fin rx; ExportMore.region_y := Fin ry;
                  ExportMore.finalWidth := Fin fw; ExportMore.finalHeight := Fin fh |}
      /\ (0 <= rx)%Q /\ (0 <= ry)%Q /\ (0 < fw)%Q /\ (0 < fh)%Q
      /\ (rx + fw <= iw)%Q /\ (ry + fh <= ih)%Q.
Proof.
  intros iw ih cx cy cw ch region.
  unfold ExportMore.cropRegion. cbv zeta.
  cbn [ExportMore.crop_x ExportMore.crop_y ExportMore.crop_width
       ExportMore.crop_height ExportMore.floor].
  destruct (CropFacts.max_Fin 0 (inject_Z (Qfloor cx))) as (rx & -> & Hx0 & _ & _).
  destruct (CropFacts.max_Fin 0 (inject_Z (Qfloor cy))) as (ry & -> & Hy0 & _ & _).
  destruct (CropFacts.max_Fin 1 (inject_Z (Qfloor cw))) as (w & -> & _ & _ & _).
  destruct (CropFacts.max_Fin 1 (inject_Z (Qfloor ch))) as (h & -> & _ & _ & _).
  cbn [JSNumber.sub JSNumber.neg JSNumber.add].
  destruct (CropFacts.max_Fin 0 (iw + - rx)) as (mw & -> & _ & _ & Hmw).
  destruct (CropFacts.max_Fin 0 (ih + - ry)) as (mh & -> & _ & _ & Hmh).
  destruct (CropFacts.min_Fin w mw) as (fw & -> & _ & Hfw).
  destruct (CropFacts.min_Fin h mh) as (fh & -> & _ & Hfh).
  destruct (ExportMore.leb (Fin fw) (Fin 0)) eqn:Lw; [discriminate|].
  destruct (ExportMore.leb (Fin fh) (Fin 0)) eqn:Lh; [discriminate|].
  cbn [orb]. intros [= <-].
  apply CropFacts.leb_Fin_false in Lw, Lh.
  exists rx, ry, fw, fh. split; [reflexivity|].
  repeat apply conj; try assumption.
  - destruct Hmw as [E | E]; rewrite E in Hfw; lra.
  - destruct Hmh as [E | E]; rewrite E in Hfh; lra.
Qed.

Lemma cropRegion_inside_image_witness :
  exists rx ry fw fh,
    ExportMore.cropRegion (Fin 100) (Fin 50)
      {| ExportMore.crop_x := Fin (-5); ExportMore.crop_y := Fin (21 # 2);
         ExportMore.crop_width := Fin 800; ExportMore.crop_height := Fin 20 |}
    = ExportCmd.Returns
        {| ExportMore.region_x := Fin rx; ExportMore.region_y := Fin ry;
           ExportMore.finalWidth := Fin fw; ExportMore.finalHeight := Fin fh |}
    /\ (rx + fw <= 100)%Q /\ (ry + fh <= 50)%Q.
Proof.
  destruct (cropRegion_inside_image 100 50 (-5) (21 # 2) 800 20 _ eq_refl)
    as (rx & ry & fw & fh & E & _ & _ & _ & _ & Hw & Hh).
  exists rx, ry, fw, fh. split; [|split; assumption].
  rewrite <- E. reflexivity.
Defined.

Module FilenameFacts.
Import ExportMore TextCmd.

Lemma collapseRuns_members inRun replacement s :
  forall inside c,
    In c (collapseRuns inRun replacement inside s) ->
    c = replacement \/ (In c s /\ inRun c = false).
Proof.
  induction s as [|d s IH]; intros inside c; simpl; [tauto|].
  destruct (inRun d) eqn:E.
  - destruct inside; simpl.
    + intros Hin. destruct (IH _ _ Hin) as [-> | [H1 H2]]; auto.
    + intros [<- | Hin]; auto. destruct (IH _ _ Hin) as [-> | [H1 H2]]; auto.
  - simpl. intros [<- | Hin]; auto.
    destruct (IH _ _ Hin) as [-> | [H1 H2]]; auto.
Qed.

Lemma noDoubleDash_cons c s :
  noDoubleDash (c :: s)
  <-> ~ (isDash c = true /\ startsWithDash s = true) /\ noDoubleDash s.
Proof.
  destruct s as [|d s]; simpl; [|tauto].
  split; [intros _; split; [intros [_ E]; discriminate | exact I] | tauto].
Qed.

Lemma collapse_dashes s :
  startsWithDash (collapseRuns isDash DASH true s) = false
  /\ noDoubleDash (collapseRuns isDash DASH true s)
  /\ noDoubleDash (collapseRuns isDash DASH false s).
Proof.
  induction s as [|c s (IH1 & IH2 & IH3)]; [now repeat split|].
  cbn [collapseRuns]. destruct (isDash c) eqn:E.
  - repeat split; try assumption.
    apply noDoubleDash_cons. split; [|exact IH2].
    intros [_ Hd]. congruence.
  - repeat split.
    + exact E.
    + apply noDoubleDash_cons. split; [|exact IH3]. intros [Hd _]. congruence.
    + apply noDoubleDash_cons. split; [|exact IH3]. intros [Hd _]. congruence.
Qed.

Lemma noDoubleDash_snoc s c :
  noDoubleDash (s ++ [c])
  -> noDoubleDash s
     /\ ~ (startsWithDash (List.rev s) = true /\ isDash c = true).
Proof.
  induction s as [|d s IH]; simpl app.
  - intros _. split; [exact I | intros [E _]; discriminate].
  - intros Hn. apply noDoubleDash_cons in Hn as [Hpair Hrest].
    destruct (IH Hrest) as [Hs Hlast]. split.
    + apply noDoubleDash_cons. split; [|exact Hs].
      intros [Hd Hs']. apply Hpair. split; [exact Hd|].
      destruct s; [discriminate | exact Hs'].
    + intros [Hrev Hc]. simpl in Hrev.
      destruct s as [|e s'].
      * simpl in *. apply Hpair. now split.
      * apply Hlast. split; [|exact Hc].
        simpl in *. destruct (List.rev s' ++ [e]) eqn:E2; [|exact Hrev].
        now destruct (List.rev s').
Qed.

Lemma dropLastDash_shape s :
  noDoubleDash s ->
  startsWithDash (List.rev (dropLastDash s)) = false
  /\ noDoubleDash (dropLastDash s)
  /\ (forall c, In c (dropLastDash s) -> In c s)
  /\ (startsWithDash s = false -> startsWithDash (dropLastDash s) = false).
Proof.
  intros Hn. unfold dropLastDash.
  destruct (List.rev s) as [|c rest] eqn:E.
  - assert (s = []) as -> by (apply (f_equal (@List.rev _)) in E;
                              now rewrite List.rev_involutive in E).
    now repeat split.
  - assert (Es : s = List.rev rest ++ [c]).
    { apply (f_equal (@List.rev _)) in E.
      now rewrite List.rev_involutive in E. }
    destruct (isDash c) eqn:Hc.
    + subst s. apply noDoubleDash_snoc in Hn as [Hn Hlast].
      rewrite List.rev_involutive in *. repeat split.
      * destruct (startsWithDash rest) eqn:Hr; [|reflexivity].
        exfalso. apply Hlast. now split.
      * exact Hn.
      * intros d Hd. apply List.in_app_iff. now left.
      * intros Hs. destruct (List.rev rest); [reflexivity | exact Hs].
    + rewrite E. simpl. now repeat split.
Qed.

Lemma stripDashEnds_shape s :
  noDoubleDash s ->
  startsWithDash (stripDashEnds s) = false
  /\ startsWithDash (List.rev (stripDashEnds s)) = false
  /\ noDoubleDash (stripDashEnds s)
  /\ (forall c, In c (stripDashEnds s) -> In c s).
Proof.
  intros Hn. unfold stripDashEnds. destruct s as [|c rest]; [now repeat split|].
  destruct (isDash c) eqn:Hc.
  - apply noDoubleDash_cons in Hn as [Hpair Hrest].
    destruct (dropLastDash_shape rest Hrest) as (H1 & H2 & H3 & H4).
    repeat split; try assumption.
    + apply H4. destruct (startsWithDash rest) eqn:Hr; [|reflexivity].
      exfalso. apply Hpair. now split.
    + intros d Hd. right. now apply H3.
  - destruct (dropLastDash_shape (c :: rest) Hn) as (H1 & H2 & H3 & H4).
    repeat split; try assumption. now apply H4.
Qed.

Lemma reserved_or_ws_not_dash :
  isReserved DASH = false /\ isWhiteSpace DASH = false.
Proof. split; reflexivity. Qed.

End FilenameFacts.

(** Before it is lower-cased, a sanitized file name holds none of the
    reserved characters and no whitespace, has no two dashes in a row, and
    neither begins nor ends with a dash; every other character comes from
    the name. *)
Theorem sanitizeStem_shape :
  forall name,
    let stem := ExportMore.sanitizeStem name in
    Forall (fun c => ExportMore.isReserved c = false /\ isWhiteSpace c = false
                     /\ (c = DASH \/ In c name)) stem
    /\ ExportMore.noDoubleDash stem
    /\ ExportMore.startsWithDash stem = false
    /\ ExportMore.startsWithDash (List.rev stem) = false.
Proof.
  intros name stem. subst stem. unfold ExportMore.sanitizeStem. cbv zeta.
  set (step1 := List.map (fun c => if ExportMore.isReserved c then DASH else c) name).
  set (step2 := TextCmd.collapseRuns isWhiteSpace DASH false step1).
  set (step3 := TextCmd.collapseRuns ExportMore.isDash DASH false step2).
  destruct (FilenameFacts.collapse_dashes step2) as (_ & _ & Hn3). fold step3 in Hn3.
  destruct (FilenameFacts.stripDashEnds_shape step3 Hn3) as (H1 & H2 & H3 & H4).
  repeat apply conj; try assumption.
  apply List.Forall_forall. intros c Hc. apply H4 in Hc.
  assert (Hdash : ExportMore.isReserved DASH = false /\ isWhiteSpace DASH = false
                  /\ (DASH = DASH \/ In DASH name)) by (repeat split; now left).
  apply FilenameFacts.collapseRuns_members in Hc as [-> | [Hc _]]; [exact Hdash|].
  apply FilenameFacts.collapseRuns_members in Hc as [-> | [Hc Hws]]; [exact Hdash|].
  apply List.in_map_iff in Hc as [d [Hd Hin]].
  destruct (ExportMore.isReserved d) eqn:Hr; [subst c; exact Hdash|].
  subst c. repeat split; auto.
Qed.

Example test_sanitizeStem :
  ExportMore.sanitizeStem (lit " Icon / Arrow: left?") = lit "Icon-Arrow-left"
  /\ ExportMore.sanitizeStem (lit "???") = [].
Proof. split; vm_compute; reflexivity. Qed.
